(** * xc: cost ledger, budget enforcement, call interception and media upload

    A shallow embedding of the accounting core of the [xc] command-line
    client (src/lib/cost.ts, src/lib/budget.ts, src/lib/api.ts,
    src/commands/budget.ts, src/commands/media.ts) and the properties its
    specification states about it.

    Conventions of the embedding.
    - A JavaScript [number] that holds money is a value of an abstract
      number structure [JSNumber]; [float64] is the instance the program
      runs on (IEEE binary64), [exactQ] the instance of exact decimals.
    - Times are milliseconds since the epoch, in [Z]; an invalid date
      ([NaN] from [getTime()]) is [None].  Byte counts are in [Z].
    - Strings are [string]: sequences of 8-bit code units.
    - The file system, the clock, the operator's terminal and the network
      are fields of a [World]; code with effects is a function
      [World -> Outcome A * World]. *)

From Stdlib Require Import ZArith List String Ascii Bool Lia QArith.
From Stdlib Require Import Floats.PrimFloat Uint63.
From Stdlib Require Import FunInd Recdef.
From Stdlib Require Import DecimalString.
From Stdlib Require Floats.FloatAxioms.
Import ListNotations.

#[local] Set Warnings "-inexact-float".
#[local] Open Scope string_scope.
#[local] Open Scope Z_scope.

(* ===================================================================== *)
(** ** JavaScript numbers *)
(* ===================================================================== *)

(** The operations on [number] that the accounting code uses. *)
Class JSNumber : Type := {
  num : Type;
  lit : Q -> num;             (* a decimal literal of the source text *)
  add : num -> num -> num;    (* [a + b] *)
  leb : num -> num -> bool;   (* [a <= b] *)
  isNaN : num -> bool;        (* [isNaN(a)] *)
  truthy : num -> bool        (* [ToBoolean(a)]: false for 0, -0 and NaN *)
}.

Definition zero {N : JSNumber} : num := lit 0%Q.

(** What every number structure satisfies at the literal [0]. *)
Class ZeroLaws (N : JSNumber) : Prop := {
  truthy_zero : truthy zero = false;
  isNaN_zero : isNaN zero = false;
  leb_zero_zero : leb zero zero = true
}.


(** IEEE binary64, the numbers of the running program. *)
Definition float_of_Z (z : Z) : float :=
  if z <? 0 then PrimFloat.opp (PrimFloat.of_uint63 (Uint63.of_Z (- z)))
  else PrimFloat.of_uint63 (Uint63.of_Z z).

Definition float_lit (q : Q) : float :=
  PrimFloat.div (float_of_Z (Qnum q)) (float_of_Z (Zpos (Qden q))).

Definition float_truthy (x : float) : bool :=
  negb (PrimFloat.eqb x 0%float || PrimFloat.is_nan x).

Definition float64 : JSNumber := {|
  num := float;
  lit := float_lit;
  add := PrimFloat.add;
  leb := PrimFloat.leb;
  isNaN := PrimFloat.is_nan;
  truthy := float_truthy
|}.


(* ===================================================================== *)
(** ** JavaScript strings *)
(* ===================================================================== *)

Definition LF : ascii := ascii_of_nat 10.

(** [WhiteSpace] and [LineTerminator] code units below 256, the ones
    [String.prototype.trim] strips: TAB LF VT FF CR SP NBSP. *)
Definition isWhiteSpace (c : ascii) : bool :=
  let n := nat_of_ascii c in
  ((9 <=? n) && (n <=? 13) || (n =? 32) || (n =? 160))%nat.

Fixpoint trimStart (s : string) : string :=
  match s with
  | EmptyString => EmptyString
  | String c r => if isWhiteSpace c then trimStart r else s
  end.

Fixpoint trimEnd (s : string) : string :=
  match s with
  | EmptyString => EmptyString
  | String c r =>
      match trimEnd r with
      | EmptyString => if isWhiteSpace c then EmptyString else String c EmptyString
      | r' => String c r'
      end
  end.

(** [s.trim()] *)
Definition trim (s : string) : string := trimEnd (trimStart s).

(** [s.split("\n")]: always at least one piece. *)
Fixpoint splitLines (s : string) : list string :=
  match s with
  | EmptyString => [EmptyString]
  | String c r =>
      if Ascii.eqb c LF then EmptyString :: splitLines r
      else match splitLines r with
           | [] => [String c EmptyString]
           | l :: ls => String c l :: ls
           end
  end.

(** [c.toLowerCase()] on a code unit: A-Z and the Latin-1 capitals. *)
Definition lowerChar (c : ascii) : ascii :=
  let n := nat_of_ascii c in
  if ((65 <=? n) && (n <=? 90)
      || (192 <=? n) && (n <=? 222) && negb (n =? 215))%nat
  then ascii_of_nat (n + 32) else c.

Fixpoint toLowerCase (s : string) : string :=
  match s with
  | EmptyString => EmptyString
  | String c r => String (lowerChar c) (toLowerCase r)
  end.

(** [table[key]] on an object literal whose keys are written out. *)
Fixpoint lookup {V : Type} (table : list (string * V)) (key : string) : option V :=
  match table with
  | [] => None
  | (k, v) :: rest => if String.eqb k key then Some v else lookup rest key
  end.

(** [a ?? b] *)
Definition nullish {V : Type} (a : option V) (b : V) : V :=
  match a with Some v => v | None => b end.

(** [ToBoolean(x)] of an optional object: only undefined is falsy. *)
Definition isSome {V : Type} (x : option V) : bool :=
  match x with Some _ => true | None => false end.

(** [!s] on an optional string: undefined and the empty string are falsy. *)
Definition truthyStr (s : option string) : bool :=
  match s with
  | Some v => negb (String.eqb v "")
  | None => false
  end.

(* ===================================================================== *)
(** ** Data model *)
(* ===================================================================== *)

Section Embedding.

Context {N : JSNumber}.

(** cost.ts, [UsageEntry]: one line of usage.jsonl. *)
Record UsageEntry := {
  timestamp : string;
  endpoint : string;
  method : string;
  estimatedCost : num
}.

(** budget.ts, [BudgetAction] and [BudgetConfig]. *)
Inductive BudgetAction := block | warn | confirm.

Record BudgetConfig := {
  daily : option num;
  action : BudgetAction
}.

(** The credential descriptor that api.ts and media.ts read. *)
Record AuthCredential := {
  authType : string;                 (* [auth.type] *)
  bearerToken : option string;
  accessToken : option string;
  refreshToken : option string;
  clientId : option string;
  expiresAt : option Z
}.

Record Account := { auth : AuthCredential }.

Record Config := {
  defaultAccount : string;
  accountTable : list (string * Account)
}.

(** media.ts, [UploadStatusData]: the [data] of a media response. *)
Record ProcessingInfo := {
  info_state : option string;
  info_checkAfterSecs : option Z;
  info_errorMessage : option string   (* [info.error?.message] *)
}.

Record UploadStatusData := {
  data_id : option string;
  data_processingInfo : option ProcessingInfo
}.

(** What an SDK operation resolves to: its [data], when it has one. *)
Definition SdkResponse : Type := option UploadStatusData.

(** What the network does with one SDK operation. *)
Inductive SdkReply :=
| Replied (r : SdkResponse)
| Rejected (reason : string).

(** What the network answers to one [fetch]. *)
Record FetchResponse := {
  resp_ok : bool;
  resp_status : Z;
  resp_body : string
}.

(** What the OAuth2 handler answers to a token refresh. *)
Record OAuth2Token := {
  access_token : string;
  refresh_token : option string;
  expires_in : Z
}.

Inductive OAuthReply :=
| Granted (t : OAuth2Token)
| Refused (reason : string).

(** Arguments of the SDK operations the media code calls. *)
Inductive SdkArgs :=
| InitArgs (mediaType mediaCategory : string) (totalBytes : Z)
| FinalizeArgs (mediaId : string)
| StatusArgs (mediaId : string)
| UploadArgs (filePath mediaType mediaCategory : string)
| OtherArgs (args : list string).

(** Everything the program does that the outside can observe, apart from
    writing its two files. *)
Inductive Event :=
| BudgetWarning (dailyLimit todaySpend callCost : num)
| BudgetPrompt (dailyLimit todaySpend callCost : num)
| SdkCall (namespace operation : string) (args : SdkArgs)
| FetchAppend (url : string) (segmentIndex offset chunkLen : Z)
| UploadProgress (bytesRead fileSize : Z)
| ProcessingNotice (waitSecs : Z)
| Sleep (ms : Z)
| RefreshNotice
| TokenRefresh (client token : string).

(** One constructor per [throw new Error(...)] and [process.exit(1)] of
    the modelled code, with the data its message is built from. *)
Inductive Error :=
| BudgetExceeded (dailyLimit todaySpend callCost : num)
| UserCancelled
| UnsupportedType (ext : string)
| FileTooLarge (fileSize sizeLimit : Z) (mediaCategory : string)
| UploadInitFailed
| NoAccessTokenForUpload
| AppendFailed (segmentIndex status : Z) (body : string)
| OneShotFailed
| ProcessingFailed (message : string)
| ProcessingTimeout
| NoAccount (accountName : option string)
| EmptyBearerToken
| NoAccessToken
| NoRefreshToken
| UnknownAuthType (t : string)
| InvalidDaily
| InvalidAction
| NoSuchFile (filePath : string)
| NotAFunction (namespace operation : string)
| NetworkError (reason : string).

(** The state the program runs against. *)
Record World := {
  budgetFile : option BudgetConfig;   (* ~/.xc/budget.json, when it exists:
                                         the [BudgetConfig] its text parses to *)
  usageFile : option string;          (* ~/.xc/usage.jsonl, when it exists *)
  config : Config;                    (* the account store *)
  fileSizes : list (string * Z);      (* [fs.statSync(p).size] of the files present *)
  nowMs : Z;                          (* [Date.now()] *)
  midnightMs : Z;                     (* local midnight of the current day *)
  nowISO : string;                    (* [new Date().toISOString()] *)
  stdin : list string;                (* the operator's answers to come *)
  sdkReplies : list SdkReply;         (* the network's answers to SDK calls *)
  fetchReplies : list FetchResponse;  (* the network's answers to fetches *)
  oauthReplies : list OAuthReply;     (* the answers to token refreshes *)
  trace : list Event                  (* what has been done, oldest first *)
}.

Definition emit (e : Event) (w : World) : World :=
  {| budgetFile := budgetFile w; usageFile := usageFile w; config := config w;
     fileSizes := fileSizes w; nowMs := nowMs w; midnightMs := midnightMs w;
     nowISO := nowISO w; stdin := stdin w; sdkReplies := sdkReplies w;
     fetchReplies := fetchReplies w; oauthReplies := oauthReplies w;
     trace := trace w ++ [e] |}.

Definition withBudgetFile (b : option BudgetConfig) (w : World) : World :=
  {| budgetFile := b; usageFile := usageFile w; config := config w;
     fileSizes := fileSizes w; nowMs := nowMs w; midnightMs := midnightMs w;
     nowISO := nowISO w; stdin := stdin w; sdkReplies := sdkReplies w;
     fetchReplies := fetchReplies w; oauthReplies := oauthReplies w;
     trace := trace w |}.

Definition withUsageFile (u : option string) (w : World) : World :=
  {| budgetFile := budgetFile w; usageFile := u; config := config w;
     fileSizes := fileSizes w; nowMs := nowMs w; midnightMs := midnightMs w;
     nowISO := nowISO w; stdin := stdin w; sdkReplies := sdkReplies w;
     fetchReplies := fetchReplies w; oauthReplies := oauthReplies w;
     trace := trace w |}.

Definition withConfig (c : Config) (w : World) : World :=
  {| budgetFile := budgetFile w; usageFile := usageFile w; config := c;
     fileSizes := fileSizes w; nowMs := nowMs w; midnightMs := midnightMs w;
     nowISO := nowISO w; stdin := stdin w; sdkReplies := sdkReplies w;
     fetchReplies := fetchReplies w; oauthReplies := oauthReplies w;
     trace := trace w |}.

Definition withStdin (l : list string) (w : World) : World :=
  {| budgetFile := budgetFile w; usageFile := usageFile w; config := config w;
     fileSizes := fileSizes w; nowMs := nowMs w; midnightMs := midnightMs w;
     nowISO := nowISO w; stdin := l; sdkReplies := sdkReplies w;
     fetchReplies := fetchReplies w; oauthReplies := oauthReplies w;
     trace := trace w |}.

Definition withSdkReplies (l : list SdkReply) (w : World) : World :=
  {| budgetFile := budgetFile w; usageFile := usageFile w; config := config w;
     fileSizes := fileSizes w; nowMs := nowMs w; midnightMs := midnightMs w;
     nowISO := nowISO w; stdin := stdin w; sdkReplies := l;
     fetchReplies := fetchReplies w; oauthReplies := oauthReplies w;
     trace := trace w |}.

Definition withFetchReplies (l : list FetchResponse) (w : World) : World :=
  {| budgetFile := budgetFile w; usageFile := usageFile w; config := config w;
     fileSizes := fileSizes w; nowMs := nowMs w; midnightMs := midnightMs w;
     nowISO := nowISO w; stdin := stdin w; sdkReplies := sdkReplies w;
     fetchReplies := l; oauthReplies := oauthReplies w;
     trace := trace w |}.

Definition withOauthReplies (l : list OAuthReply) (w : World) : World :=
  {| budgetFile := budgetFile w; usageFile := usageFile w; config := config w;
     fileSizes := fileSizes w; nowMs := nowMs w; midnightMs := midnightMs w;
     nowISO := nowISO w; stdin := stdin w; sdkReplies := sdkReplies w;
     fetchReplies := fetchReplies w; oauthReplies := l;
     trace := trace w |}.

(** *** Computations with effects

    A call returns, throws, or never settles (a prompt nobody answers). *)
Inductive Outcome (A : Type) :=
| Ok (a : A)
| Throw (e : Error)
| Unsettled.

Arguments Ok {A} a.
Arguments Throw {A} e.
Arguments Unsettled {A}.

Definition M (A : Type) : Type := World -> Outcome A * World.

Definition ret {A : Type} (a : A) : M A := fun w => (Ok a, w).

Definition throw {A : Type} (e : Error) : M A := fun w => (Throw e, w).

Definition bind {A B : Type} (c : M A) (k : A -> M B) : M B :=
  fun w =>
    match c w with
    | (Ok a, w') => k a w'
    | (Throw e, w') => (Throw e, w')
    | (Unsettled, w') => (Unsettled, w')
    end.

Definition log (e : Event) : M unit := fun w => (Ok tt, emit e w).

End Embedding.

Arguments Ok {N A} a.
Arguments Throw {N A} e.
Arguments Unsettled {N A}.

Notation "x <- c ;; k" := (bind c (fun x => k))
  (at level 61, c at next level, right associativity).
Notation "c ;; k" := (bind c (fun _ => k))
  (at level 61, right associativity).

(** The parts of the JavaScript runtime that the program calls and the
    embedding does not look inside.  A ledger line that [JSON.parse]
    accepts is taken to have the shape of a [UsageEntry], as the cast in
    [loadUsageLog] asserts. *)
Class Runtime {N : JSNumber} : Type := {
  (* [JSON.parse(line) as UsageEntry]; [None] when it throws *)
  JSON_parse : string -> option UsageEntry;
  (* [JSON.stringify(entry)] *)
  JSON_stringify : UsageEntry -> string;
  (* [new Date(s).getTime()]; [None] for NaN *)
  Date_getTime : string -> option Z;
  (* [path.extname(p)] *)
  path_extname : string -> string
}.

(* ===================================================================== *)
(** ** src/lib/cost.ts *)
(* ===================================================================== *)

Section Cost.

Context {N : JSNumber} {rt : Runtime}.

Definition COST_MAP : list (string * num) :=
  [ ("posts.searchRecent", lit 0.01%Q);
    ("posts.searchAll", lit 0.02%Q);
    ("posts.create", lit 0.01%Q);
    ("users.getMe", lit 0.005%Q);
    ("users.getByUsername", lit 0.005%Q);
    ("users.getPosts", lit 0.005%Q);
    ("users.getTimeline", lit 0.005%Q);
    ("users.likePost", lit 0.005%Q);
    ("users.unlikePost", lit 0.005%Q);
    ("usage.get", lit 0.0%Q) ].

Definition DEFAULT_COST : num := lit 0.005%Q.

Definition METHOD_MAP : list (string * string) :=
  [ ("posts.create", "POST");
    ("users.likePost", "POST");
    ("users.unlikePost", "DELETE") ].

Definition estimateCost (endpoint : string) : num :=
  nullish (lookup COST_MAP endpoint) DEFAULT_COST.

Definition inferMethod (endpoint : string) : string :=
  nullish (lookup METHOD_MAP endpoint) "GET".

(** [fs.appendFileSync]: the file is created when it is absent. *)
Definition appendFileSync (data : string) (file : option string) : option string :=
  match file with
  | None => Some data
  | Some old => Some (old ++ data)
  end.

(** [ensureConfigDir()] is part of the write: the file can always be
    appended to. *)
Definition logApiCall (endpoint : string) : M unit :=
  fun w =>
    let entry := {| timestamp := nowISO w;
                    endpoint := endpoint;
                    method := inferMethod endpoint;
                    estimatedCost := estimateCost endpoint |} in
    let line := JSON_stringify entry ++ String LF EmptyString in
    (Ok tt, withUsageFile (appendFileSync line (usageFile w)) w).

(** The [for (const line of ...)] loop of [loadUsageLog]: [entries] is the
    array built so far; a line whose [JSON.parse] throws is skipped. *)
Fixpoint parseLines (lines : list string) (entries : list UsageEntry)
  : list UsageEntry :=
  match lines with
  | [] => entries
  | line :: rest =>
      match JSON_parse line with
      | Some e => parseLines rest (entries ++ [e])
      | None => parseLines rest entries
      end
  end.

Definition loadUsageLog (w : World) : list UsageEntry :=
  match usageFile w with
  | None => []
  | Some content =>
      let raw := trim content in
      if String.eqb raw "" then []
      else parseLines (splitLines raw) []
  end.

(** [new Date(entry.timestamp).getTime() >= cutoff]; false for NaN. *)
Definition atOrAfter (entry : UsageEntry) (cutoff : Z) : bool :=
  match Date_getTime (timestamp entry) with
  | Some t => cutoff <=? t
  | None => false
  end.

(** The summing loop shared by [computeSpend] and [computeTodaySpend]. *)
Fixpoint sumFrom (cutoff : Z) (entries : list UsageEntry) (total : num) : num :=
  match entries with
  | [] => total
  | entry :: rest =>
      if atOrAfter entry cutoff
      then sumFrom cutoff rest (add total (estimatedCost entry))
      else sumFrom cutoff rest total
  end.


Definition computeTodaySpend (w : World) (entries : list UsageEntry) : num :=
  let cutoff := midnightMs w in
  sumFrom cutoff entries zero.

Definition DAY : Z := 86400000.
Definition WEEK : Z := 7 * DAY.
Definition MONTH : Z := 30 * DAY.

End Cost.

(* ===================================================================== *)
(** ** src/lib/budget.ts *)
(* ===================================================================== *)

Section Budget.

Context {N : JSNumber} {rt : Runtime}.

Definition loadBudget (w : World) : BudgetConfig :=
  match budgetFile w with
  | None => {| daily := None; action := warn |}
  | Some cfg => cfg
  end.

Definition saveBudget (cfg : BudgetConfig) : M unit :=
  fun w => (Ok tt, withBudgetFile (Some cfg) w).

Definition resetBudget : M unit :=
  fun w => (Ok tt, withBudgetFile None w).

(** The question is written to stderr and one line is read from stdin;
    with no line to read the promise never resolves. *)
Definition confirmPrompt (dailyLimit todaySpend callCost : num) : M bool :=
  fun w =>
    let w1 := emit (BudgetPrompt dailyLimit todaySpend callCost) w in
    match stdin w1 with
    | [] => (Unsettled, w1)
    | answer :: rest =>
        (Ok (String.eqb (toLowerCase answer) "y"), withStdin rest w1)
    end.

Definition checkBudget (endpoint : string) : M unit :=
  fun w =>
    let budget := loadBudget w in
    match daily budget with
    | None => (Ok tt, w)                       (* [!undefined] *)
    | Some limit =>
        if negb (truthy limit) then (Ok tt, w) (* [!0], [!NaN] *)
        else
          let entries := loadUsageLog w in
          let todaySpend := computeTodaySpend w entries in
          let callCost := estimateCost endpoint in
          if leb (add todaySpend callCost) limit then (Ok tt, w)
          else
            match action budget with
            | block => (Throw (BudgetExceeded limit todaySpend callCost), w)
            | warn => log (BudgetWarning limit todaySpend callCost) w
            | confirm =>
                (proceed <- confirmPrompt limit todaySpend callCost ;;
                 if negb proceed then throw UserCancelled else ret tt) w
            end
    end.

End Budget.

(* ===================================================================== *)
(** ** src/commands/budget.ts *)
(* ===================================================================== *)

Section BudgetCommand.

Context {N : JSNumber} {rt : Runtime}.

Definition VALID_ACTIONS : list (string * BudgetAction) :=
  [ ("block", block); ("warn", warn); ("confirm", confirm) ].

(** [xc budget set --daily <amount> --action <action>]; [dailyArg] is
    [parseFloat(opts.daily)], and [process.exit(1)] after an error message
    is the matching [Throw]. *)
Definition budgetSet (dailyArg : num) (actionArg : string) : M unit :=
  if isNaN dailyArg || leb dailyArg zero then throw InvalidDaily
  else
    match lookup VALID_ACTIONS actionArg with
    | None => throw InvalidAction
    | Some a => saveBudget {| daily := Some dailyArg; action := a |}
    end.

End BudgetCommand.

(* ===================================================================== *)
(** ** src/lib/api.ts *)
(* ===================================================================== *)

Section Api.

Context {N : JSNumber} {rt : Runtime}.

(** An SDK client: namespaces ([client.posts], [client.media], ...) that
    hold operations.  Properties that are not namespaces, and namespace
    members that are not functions, are left out: the proxy hands them
    through untouched. *)
Definition Method : Type := SdkArgs -> M SdkResponse.
Definition Namespace : Type := string -> option Method.
Definition Client : Type := string -> option Namespace.

(** [client.ns.op(args)] *)
Definition call (client : Client) (ns op : string) (args : SdkArgs)
  : M SdkResponse :=
  match client ns with
  | None => throw (NotAFunction ns op)
  | Some value =>
      match value op with
      | None => throw (NotAFunction ns op)
      | Some f => f args
      end
  end.

(** The function the inner proxy returns for [client[prop][nsProp]]. *)
Definition intercepted (prop nsProp : string) (nsValue : Method) : Method :=
  fun args =>
    let endpoint := prop ++ "." ++ nsProp in
    checkBudget endpoint ;;
    logApiCall endpoint ;;
    nsValue args.

Definition wrapClient (client : Client) : Client :=
  fun prop =>
    match client prop with
    | None => None
    | Some value =>
        Some (fun nsProp =>
                match value nsProp with
                | None => None
                | Some nsValue => Some (intercepted prop nsProp nsValue)
                end)
    end.

(** Modelled from the spec: the vendor SDK ([new Client(...)]) is the
    upstream API collaborator, "operation(args) -> {data?, ...}, may fail
    with an HTTP-style status/error".  One operation is one request; the
    network's next answer settles it. *)
Definition sdkOperation (ns op : string) : Method :=
  fun args w =>
    let w1 := emit (SdkCall ns op args) w in
    match sdkReplies w1 with
    | [] => (Throw (NetworkError "no reply"), w1)
    | Replied r :: rest => (Ok r, withSdkReplies rest w1)
    | Rejected reason :: rest => (Throw (NetworkError reason), withSdkReplies rest w1)
    end.

Definition sdkClient : Client :=
  fun ns => Some (fun op => Some (sdkOperation ns op)).

(** config.ts, [getAccount] and [setAccount], on the account store that
    [loadConfig] reads: an absent name means the default account, and an
    account set under a name is the one later found under it. *)
Definition getAccount (accountName : option string) (w : World) : option Account :=
  lookup (accountTable (config w))
         (nullish accountName (defaultAccount (config w))).

Definition setAccount (name : string) (account : Account) : M unit :=
  fun w =>
    (Ok tt,
     withConfig {| defaultAccount := defaultAccount (config w);
                   accountTable := (name, account) :: accountTable (config w) |} w).

(** oauth.ts, [refreshAccessToken]: what getClient uses of its result. *)
Record OAuthFlowResult := {
  flow_accessToken : string;
  flow_refreshToken : option string;
  flow_expiresAt : Z
}.

Definition refreshAccessToken (client token : string) : M OAuthFlowResult :=
  fun w =>
    let w1 := emit (TokenRefresh client token) w in
    match oauthReplies w1 with
    | [] => (Throw (NetworkError "no reply"), w1)
    | Granted tokens :: rest =>
        (Ok {| flow_accessToken := access_token tokens;
               flow_refreshToken := Some (nullish (refresh_token tokens) token);
               flow_expiresAt := nowMs w + expires_in tokens * 1000 |},
         withOauthReplies rest w1)
    | Refused reason :: rest =>
        (Throw (NetworkError reason), withOauthReplies rest w1)
    end.

Definition getClient (accountName : option string) : M Client :=
  fun w =>
    match getAccount accountName w with
    | None => (Throw (NoAccount accountName), w)
    | Some account =>
        let a := auth account in
        if String.eqb (authType a) "bearer" then
          if negb (truthyStr (bearerToken a)) then (Throw EmptyBearerToken, w)
          else (Ok (wrapClient sdkClient), w)
        else if String.eqb (authType a) "oauth2" then
          if negb (truthyStr (accessToken a)) then (Throw NoAccessToken, w)
          else
            let expires := nullish (expiresAt a) 0 in
            if expires - 60000 <=? nowMs w then
              if negb (truthyStr (refreshToken a)) || negb (truthyStr (clientId a))
              then (Throw NoRefreshToken, w)
              else
                (log RefreshNotice ;;
                 result <- refreshAccessToken (nullish (clientId a) "")
                                              (nullish (refreshToken a) "") ;;
                 setAccount (nullish accountName "default")
                   {| auth := {| authType := authType a;
                                 bearerToken := bearerToken a;
                                 accessToken := Some (flow_accessToken result);
                                 refreshToken :=
                                   match flow_refreshToken result with
                                   | Some t => Some t
                                   | None => refreshToken a
                                   end;
                                 clientId := clientId a;
                                 expiresAt := Some (flow_expiresAt result) |} |} ;;
                 ret (wrapClient sdkClient)) w
            else (Ok (wrapClient sdkClient), w)
        else (Throw (UnknownAuthType (authType a)), w)
    end.

End Api.

(* ===================================================================== *)
(** ** src/commands/media.ts *)
(* ===================================================================== *)

Section Media.

Context {N : JSNumber} {rt : Runtime}.

(** The keys are what [path.extname(p).toLowerCase()] can return that the
    objects hold: an extension is empty or starts with a dot, so no
    inherited property is ever looked up. *)
Definition MIME_MAP : list (string * string) :=
  [ (".jpg", "image/jpeg"); (".jpeg", "image/jpeg"); (".png", "image/png");
    (".gif", "image/gif"); (".bmp", "image/bmp"); (".webp", "image/webp");
    (".tiff", "image/tiff"); (".mp4", "video/mp4"); (".webm", "video/webm");
    (".mov", "video/quicktime"); (".ts", "video/mp2t") ].

Definition CATEGORY_MAP : list (string * string) :=
  [ (".jpg", "tweet_image"); (".jpeg", "tweet_image"); (".png", "tweet_image");
    (".bmp", "tweet_image"); (".webp", "tweet_image"); (".tiff", "tweet_image");
    (".gif", "tweet_gif"); (".mp4", "tweet_video"); (".webm", "tweet_video");
    (".mov", "tweet_video"); (".ts", "tweet_video") ].

Definition SIZE_LIMITS : list (string * Z) :=
  [ ("tweet_image", 5 * 1024 * 1024);
    ("tweet_gif", 15 * 1024 * 1024);
    ("tweet_video", 512 * 1024 * 1024) ].

Definition CHUNK_SIZE : Z := 5 * 1024 * 1024.

(** [fs.statSync(filePath).size] *)
Definition statSync (filePath : string) : M Z :=
  fun w =>
    match lookup (fileSizes w) filePath with
    | Some size => (Ok size, w)
    | None => (Throw (NoSuchFile filePath), w)
    end.

(** [result.data?.id] and [result.data?.processingInfo] *)
Definition idOf (result : SdkResponse) : option string :=
  match result with
  | Some data => data_id data
  | None => None
  end.

Definition processingInfoOf (result : SdkResponse) : option ProcessingInfo :=
  match result with
  | Some data => data_processingInfo data
  | None => None
  end.

Definition stateIs (info : ProcessingInfo) (s : string) : bool :=
  match info_state info with
  | Some v => String.eqb v s
  | None => false
  end.

Definition maxAttempts : nat := 60.

(** The [for (let i = 0; i < maxAttempts; i++)] loop of
    [waitForProcessing], by the number of attempts left
    ([maxAttempts - i]). *)
Fixpoint pollLoop (client : Client) (mediaId : string) (attemptsLeft : nat)
  : M unit :=
  match attemptsLeft with
  | O => throw ProcessingTimeout
  | S n =>
      status <- call client "media" "getUploadStatus" (StatusArgs mediaId) ;;
      match processingInfoOf status with
      | None => ret tt
      | Some info =>
          if stateIs info "succeeded" then ret tt
          else if stateIs info "failed" then
            throw (ProcessingFailed
                     (nullish (info_errorMessage info) "unknown error"))
          else
            let waitSecs := nullish (info_checkAfterSecs info) 5 in
            log (ProcessingNotice waitSecs) ;;
            log (Sleep (waitSecs * 1000)) ;;
            pollLoop client mediaId n
      end
  end.

Definition waitForProcessing (client : Client) (mediaId : string) : M unit :=
  pollLoop client mediaId maxAttempts.

Definition appendUrl (mediaId : string) : string :=
  "https://api.x.com/2/media/upload/" ++ mediaId ++ "/append".

(** [fetch(appendUrl, { method: "POST", ... })] with the chunk read at
    [offset]: a plain HTTP request, made by media.ts itself. *)
Definition fetchAppend (mediaId : string) (segmentIndex offset chunkLen : Z)
  : M FetchResponse :=
  fun w =>
    let w1 := emit (FetchAppend (appendUrl mediaId) segmentIndex offset chunkLen) w in
    match fetchReplies w1 with
    | [] => (Throw (NetworkError "no reply"), w1)
    | resp :: rest => (Ok resp, withFetchReplies rest w1)
    end.

Definition chunkLenAt (fileSize bytesRead : Z) : Z :=
  Z.min CHUNK_SIZE (fileSize - bytesRead).

(** The [while (bytesRead < fileSize)] loop of [chunkedUpload]; it returns
    the values of [bytesRead] and [segmentIndex] it stops with.  Each
    round moves [bytesRead] at least one byte closer to [fileSize]. *)
Function appendLoop (mediaId : string) (fileSize bytesRead segmentIndex : Z)
  (w : World) {measure (fun b => Z.to_nat (fileSize - b)) bytesRead}
  : Outcome (Z * Z) * World :=
  if bytesRead <? fileSize then
    let chunkLen := chunkLenAt fileSize bytesRead in
    match fetchAppend mediaId segmentIndex bytesRead chunkLen w with
    | (Ok resp, w1) =>
        if negb (resp_ok resp)
        then (Throw (AppendFailed segmentIndex (resp_status resp)
                                  (resp_body resp)), w1)
        else appendLoop mediaId fileSize (bytesRead + chunkLen)
               (segmentIndex + 1)
               (emit (UploadProgress (bytesRead + chunkLen) fileSize) w1)
    | (Throw e, w1) => (Throw e, w1)
    | (Unsettled, w1) => (Unsettled, w1)
    end
  else (Ok (bytesRead, segmentIndex), w).
Proof.
  intros. apply Z.ltb_lt in teq. unfold chunkLenAt, CHUNK_SIZE. lia.
Defined.

Definition chunkedUpload (client : Client)
  (filePath mediaType mediaCategory : string) (accountName : option string)
  : M string :=
  fileSize <- statSync filePath ;;
  (* INIT *)
  initResult <- call client "media" "initializeUpload"
                  (InitArgs mediaType mediaCategory fileSize) ;;
  if negb (truthyStr (idOf initResult)) then throw UploadInitFailed
  else
    let mediaId := nullish (idOf initResult) "" in
    (* APPEND *)
    fun w =>
      let token :=
        match getAccount accountName w with
        | Some account => accessToken (auth account)
        | None => None
        end in
      if negb (truthyStr token) then (Throw NoAccessTokenForUpload, w)
      else
        (appendLoop mediaId fileSize 0 0 ;;
         (* FINALIZE *)
         finalResult <- call client "media" "finalizeUpload"
                          (FinalizeArgs mediaId) ;;
         if String.eqb mediaCategory "tweet_video"
            || isSome (processingInfoOf finalResult)
         then waitForProcessing client mediaId ;; ret mediaId
         else ret mediaId) w.

Definition oneShotUpload (client : Client)
  (filePath mediaType mediaCategory : string) : M string :=
  result <- call client "media" "upload"
              (UploadArgs filePath mediaType mediaCategory) ;;
  if negb (truthyStr (idOf result)) then throw OneShotFailed
  else ret (nullish (idOf result) "").

Definition uploadMedia (filePath : string) (accountName : option string)
  : M string :=
  let ext := toLowerCase (path_extname filePath) in
  match lookup MIME_MAP ext with
  | None => throw (UnsupportedType ext)
  | Some mediaType =>
      let mediaCategory := nullish (lookup CATEGORY_MAP ext) "tweet_image" in
      let sizeLimit :=
        nullish (lookup SIZE_LIMITS mediaCategory)
                (5 * 1024 * 1024) (* [SIZE_LIMITS.tweet_image] *) in
      fileSize <- statSync filePath ;;
      if sizeLimit <? fileSize
      then throw (FileTooLarge fileSize sizeLimit mediaCategory)
      else
        client <- getClient accountName ;;
        if String.eqb mediaCategory "tweet_image"
        then oneShotUpload client filePath mediaType mediaCategory
        else chunkedUpload client filePath mediaType mediaCategory accountName
  end.

End Media.

(* ===================================================================== *)
(** * Vocabulary of the properties *)
(* ===================================================================== *)

(* --------------------------------------------------------------------- *)
(** ** Requests and ledger lines *)
(* --------------------------------------------------------------------- *)

(** Requests that leave the machine. *)
Definition isNetworkEvent {N : JSNumber} (e : Event) : bool :=
  match e with
  | SdkCall _ _ _ | FetchAppend _ _ _ _ | TokenRefresh _ _ => true
  | _ => false
  end.

Definition networkEvents {N : JSNumber} (t : list Event) : list Event :=
  filter isNetworkEvent t.

(** The line [logApiCall] writes for an endpoint. *)
Definition usageLine {N : JSNumber} {rt : Runtime} (endpoint : string)
  (w : World) : string :=
  JSON_stringify {| timestamp := nowISO w;
                    endpoint := endpoint;
                    method := inferMethod endpoint;
                    estimatedCost := estimateCost endpoint |}
  ++ String LF EmptyString.

(* --------------------------------------------------------------------- *)
(** ** The ledger as a file of lines *)
(* --------------------------------------------------------------------- *)

Fixpoint hasLF (s : string) : bool :=
  match s with
  | EmptyString => false
  | String c r => Ascii.eqb c LF || hasLF r
  end.

(** A file of complete lines: each one ended by a line feed, as
    [logApiCall] writes them. *)
Fixpoint unlines (lines : list string) : string :=
  match lines with
  | [] => EmptyString
  | l :: rest => l ++ String LF (unlines rest)
  end.

(** [lines.join("\n")] *)
Fixpoint joinLines (lines : list string) : string :=
  match lines with
  | [] => EmptyString
  | [l] => l
  | l :: rest => l ++ String LF (joinLines rest)
  end.

Section Vocabulary.

Context {N : JSNumber} {rt : Runtime}.

Definition nonNegativeCost (entry : UsageEntry) : Prop :=
  leb zero (estimatedCost entry) = true.

(** The records of the well-formed lines, in the order of the lines; a
    line is well formed when [JSON.parse] accepts it. *)
Fixpoint wellFormedEntries (lines : list string) : list UsageEntry :=
  match lines with
  | [] => []
  | line :: rest =>
      match JSON_parse line with
      | Some e => e :: wellFormedEntries rest
      | None => wellFormedEntries rest
      end
  end.

Definition wellFormedLine (line : string) : Prop :=
  hasLF line = false /\ JSON_parse line <> None.

Definition parsedAs (line : string) (e : UsageEntry) : Prop :=
  JSON_parse line = Some e.

(** What the embedding relies on of [JSON.parse]: the empty text is not
    JSON, and white space around a text it accepts does not matter. *)
Class JSONLaws : Prop := {
  parse_empty : JSON_parse "" = None;
  parse_trimStart : forall l e,
    JSON_parse l = Some e -> JSON_parse (trimStart l) = Some e;
  parse_trimEnd : forall l e,
    JSON_parse l = Some e -> JSON_parse (trimEnd l) = Some e
}.

End Vocabulary.

(* --------------------------------------------------------------------- *)
(** ** Media categories and their ceilings *)
(* --------------------------------------------------------------------- *)

Definition MiB : Z := 1024 * 1024.

(** The byte-size ceiling of a media category: Image 5 MiB, Gif 15 MiB,
    Video 512 MiB. *)
Definition ceilingOf (mediaCategory : string) : option Z :=
  if String.eqb mediaCategory "tweet_image" then Some (5 * MiB)
  else if String.eqb mediaCategory "tweet_gif" then Some (15 * MiB)
  else if String.eqb mediaCategory "tweet_video" then Some (512 * MiB)
  else None.

(* --------------------------------------------------------------------- *)
(** ** Status replies and status queries *)
(* --------------------------------------------------------------------- *)

(** No limit is in force: none is configured, or the configured one is
    falsy. *)
Definition unlimited {N : JSNumber} (w : World) : bool :=
  match daily (loadBudget w) with
  | None => true
  | Some limit => negb (truthy limit)
  end.

(** A status reply that keeps the loop waiting: it has processing
    information whose state is neither "succeeded" nor "failed". *)
Definition nonTerminal (r : SdkReply) : bool :=
  match r with
  | Replied resp =>
      match processingInfoOf resp with
      | Some info => negb (stateIs info "succeeded") && negb (stateIs info "failed")
      | None => false
      end
  | Rejected _ => false
  end.



Definition isStatusQuery {N : JSNumber} (e : Event) : bool :=
  match e with
  | SdkCall ns op _ => String.eqb ns "media" && String.eqb op "getUploadStatus"
  | _ => false
  end.

Definition statusQueries {N : JSNumber} (t : list Event) : nat :=
  List.length (filter isStatusQuery t).

(* --------------------------------------------------------------------- *)
(** ** Segments of a chunked upload *)
(* --------------------------------------------------------------------- *)

(** [ceil(a / b)] for a non-negative [a] and a positive [b]. *)
Definition ceilDiv (a b : Z) : Z := (a + b - 1) / b.

(** The segments sent so far: index, offset in the file and length of
    each APPEND request, oldest first. *)
Fixpoint sentSegments {N : JSNumber} (t : list Event) : list (Z * Z * Z) :=
  match t with
  | [] => []
  | FetchAppend _ segmentIndex offset chunkLen :: rest =>
      (segmentIndex, offset, chunkLen) :: sentSegments rest
  | _ :: rest => sentSegments rest
  end.

(** The segment of index [i] of a file cut into chunks of [CHUNK_SIZE]. *)
Definition segment (fileSize i : Z) : Z * Z * Z :=
  (i, i * CHUNK_SIZE, Z.min CHUNK_SIZE (fileSize - i * CHUNK_SIZE)).

(** [start, start + 1, ..., start + count - 1] *)
Fixpoint Zseq (start : Z) (count : nat) : list Z :=
  match count with
  | O => []
  | S k => start :: Zseq (start + 1) k
  end.

(* ===================================================================== *)
(** * A small runtime and world to run examples in *)
(* ===================================================================== *)

(** [JSON.parse] is given by the lines it accepts, and [JSON.stringify]
    writes lines of that form; dates are known for the one instant of the
    examples. *)
Definition demoNow : string := "2026-01-01T12:00:00.000Z".

Definition demoEntry {N : JSNumber} (endpoint : string) (cost : num)
  : UsageEntry :=
  {| timestamp := demoNow;
     endpoint := endpoint;
     method := inferMethod endpoint;
     estimatedCost := cost |}.

Definition demoLines {N : JSNumber} : list (string * UsageEntry) :=
  [ ("{call media.initializeUpload}",
     demoEntry "media.initializeUpload" (estimateCost "media.initializeUpload"));
    ("{call posts.create}", demoEntry "posts.create" (estimateCost "posts.create"));
    ("{call posts.searchAll}", demoEntry "posts.searchAll" (estimateCost "posts.searchAll"));
    ("{spent 1.99}", demoEntry "posts.create" (lit 1.99%Q)) ].

(** The extension of a path without directories: from its last dot on. *)
Fixpoint demoExtname (p : string) : option string :=
  match p with
  | EmptyString => None
  | String c r =>
      match demoExtname r with
      | Some e => Some e
      | None => if Ascii.eqb c "."%char then Some p else None
      end
  end.

Definition demoRuntime {N : JSNumber} : Runtime :=
  {| JSON_parse := lookup demoLines;
     JSON_stringify := fun e => "{call " ++ endpoint e ++ "}";
     Date_getTime := fun s =>
       if String.eqb s demoNow then Some 1767268800000 else None;
     path_extname := fun p => nullish (demoExtname p) "" |}.

Definition demoAccount : Account :=
  {| auth := {| authType := "oauth2";
                bearerToken := None;
                accessToken := Some "token";
                refreshToken := None;
                clientId := None;
                expiresAt := Some 1767300000000 |} |}.

Definition demoWorld {N : JSNumber} : World :=
  {| budgetFile := None;
     usageFile := None;
     config := {| defaultAccount := "default";
                  accountTable := [("default", demoAccount)] |};
     fileSizes := [ ("clip.gif", 6 * MiB);
                    ("movie.mp4", 600 * MiB);
                    ("notes.txt", 10) ];
     nowMs := 1767268800000;
     midnightMs := 1767225600000;
     nowISO := demoNow;
     stdin := [];
     sdkReplies := [];
     fetchReplies := [];
     oauthReplies := [];
     trace := [] |}.

Definition blockAt {N : JSNumber} (limit : num) : option BudgetConfig :=
  Some {| daily := Some limit; action := block |}.

Definition spent199 : string := "{spent 1.99}" ++ String LF EmptyString.

Definition okResponse : FetchResponse :=
  {| resp_ok := true; resp_status := 200; resp_body := "" |}.

Definition statusReply (state : string) (message : option string)
  : SdkReply :=
  Replied (Some {| data_id := Some "m1";
                   data_processingInfo :=
                     Some {| info_state := Some state;
                             info_checkAfterSecs := Some 1;
                             info_errorMessage := message |} |}).

Definition initReply : SdkReply :=
  Replied (Some {| data_id := Some "m1"; data_processingInfo := None |}).

(** A 6 MiB GIF uploaded under a blocking budget of 0.005 and an empty
    ledger.  INIT (estimated at 0.005) is let through and recorded, which
    uses the budget up.  Both APPEND requests are then sent, with no budget
    check and no record, and FINALIZE -- an intercepted operation again --
    is refused. *)
Definition gifUnderBudget : @World float64 :=
  withFetchReplies [okResponse; okResponse]
    (withSdkReplies [initReply; initReply]
       (withBudgetFile (blockAt (N := float64) 0.005%float) demoWorld)).

(* ===================================================================== *)
(** * Properties *)
(* ===================================================================== *)

Section BudgetFacts.

Context {N : JSNumber} {rt : Runtime}.

Lemma networkEvents_app (t1 t2 : list Event) :
  networkEvents (t1 ++ t2)%list
  = (networkEvents t1 ++ networkEvents t2)%list.
Proof. unfold networkEvents. apply filter_app. Qed.



(** C3.  The budget check returns without error when no daily limit is
    configured, and when today's spend plus the call's cost is at most
    the limit.  When the sum exceeds a configured (non-zero) limit and the
    action is [block], it throws BudgetExceeded, and an intercepted
    operation stops there: the underlying call is not run and nothing
    has changed. *)
Theorem checkBudget_decision (endpoint : string) (w : World) :
  let todaySpend := computeTodaySpend w (loadUsageLog w) in
  let callCost := estimateCost endpoint in
  (daily (loadBudget w) = None -> checkBudget endpoint w = (Ok tt, w))
  /\ (forall limit,
        daily (loadBudget w) = Some limit ->
        leb (add todaySpend callCost) limit = true ->
        checkBudget endpoint w = (Ok tt, w))
  /\ (forall limit,
        daily (loadBudget w) = Some limit ->
        truthy limit = true ->
        leb (add todaySpend callCost) limit = false ->
        action (loadBudget w) = block ->
        checkBudget endpoint w
          = (Throw (BudgetExceeded limit todaySpend callCost), w)
        /\ forall prop nsProp nsValue args,
             prop ++ "." ++ nsProp = endpoint ->
             intercepted prop nsProp nsValue args w
               = (Throw (BudgetExceeded limit todaySpend callCost), w)).
Proof.
  cbn zeta.
  assert (Hblock : forall ep limit,
    daily (loadBudget w) = Some limit ->
    truthy limit = true ->
    leb (add (computeTodaySpend w (loadUsageLog w)) (estimateCost ep)) limit
      = false ->
    action (loadBudget w) = block ->
    checkBudget ep w
      = (Throw (BudgetExceeded limit (computeTodaySpend w (loadUsageLog w))
                               (estimateCost ep)), w)).
  { intros ep limit Hd Ht Hle Ha. unfold checkBudget.
    rewrite Hd, Ht. cbn [negb]. rewrite Hle, Ha. reflexivity. }
  split; [|split].
  - intros H. unfold checkBudget. now rewrite H.
  - intros limit H Hle. unfold checkBudget. rewrite H.
    destruct (truthy limit); cbn [negb]; [|reflexivity].
    now rewrite Hle.
  - intros limit Hd Ht Hle Ha. split.
    + now apply Hblock.
    + intros prop nsProp nsValue args <-.
      unfold intercepted, bind. rewrite (Hblock _ limit) by assumption.
      reflexivity.
Qed.

(** C10.  A persisted daily limit equal to 0 switches the check off: every
    call is let through with nothing read, written or asked, whatever the
    ledger holds and whatever the action is -- although the command that
    sets the budget refuses 0 and leaves the budget file alone. *)
Theorem checkBudget_zero_limit {zeroLaws : ZeroLaws N} (endpoint : string) (w : World) :
  daily (loadBudget w) = Some zero ->
  checkBudget endpoint w = (Ok tt, w)
  /\ forall actionArg w', budgetSet zero actionArg w' = (Throw InvalidDaily, w').
Proof.
  intros H. split.
  - unfold checkBudget. rewrite H, truthy_zero. reflexivity.
  - intros. unfold budgetSet. rewrite isNaN_zero, leb_zero_zero. reflexivity.
Qed.

End BudgetFacts.

Section InterceptorFacts.

Context {N : JSNumber} {rt : Runtime}.

(** An operation of the wrapped client is the interception of the
    operation of the same name, in every namespace alike. *)
Lemma call_wrapClient (client : Client) (prop nsProp : string)
  (value : Namespace) (nsValue : Method) (args : SdkArgs) :
  client prop = Some value ->
  value nsProp = Some nsValue ->
  call (wrapClient client) prop nsProp args
    = intercepted prop nsProp nsValue args.
Proof.
  intros Hns Hop. unfold call, wrapClient. now rewrite Hns, Hop.
Qed.

Lemma logApiCall_spec (endpoint : string) (w : World) :
  logApiCall endpoint w
    = (Ok tt,
       withUsageFile (appendFileSync (usageLine endpoint w) (usageFile w)) w).
Proof. reflexivity. Qed.


End InterceptorFacts.

Section SpendFacts.

Context {N : JSNumber} {rt : Runtime}.




End SpendFacts.

(* --------------------------------------------------------------------- *)
(** ** The ledger read back *)
(* --------------------------------------------------------------------- *)

Section LedgerFacts.

Context {N : JSNumber} {rt : Runtime}.

Lemma parseLines_spec (lines : list string) (entries : list UsageEntry) :
  parseLines lines entries = (entries ++ wellFormedEntries lines)%list.
Proof.
  revert entries. induction lines as [|line rest IH]; intros entries; cbn.
  - now rewrite app_nil_r.
  - destruct (JSON_parse line).
    + rewrite IH, <- app_assoc. reflexivity.
    + apply IH.
Qed.

Lemma wellFormedEntries_app (l1 l2 : list string) :
  wellFormedEntries (l1 ++ l2)
    = (wellFormedEntries l1 ++ wellFormedEntries l2)%list.
Proof.
  induction l1 as [|l rest IH]; cbn; [reflexivity|].
  destruct (JSON_parse l); cbn; now rewrite IH.
Qed.

Lemma wellFormedEntries_skip (l1 l2 : list string) (bad : string) :
  JSON_parse bad = None ->
  wellFormedEntries (l1 ++ bad :: l2) = wellFormedEntries (l1 ++ l2).
Proof.
  intros Hbad. rewrite !wellFormedEntries_app. cbn. now rewrite Hbad.
Qed.

Lemma wellFormedEntries_all (lines : list string) :
  Forall wellFormedLine lines ->
  Forall2 parsedAs lines (wellFormedEntries lines).
Proof.
  induction 1 as [|l rest [_ Hl] _ IH]; cbn; [constructor|].
  destruct (JSON_parse l) eqn:E; [|contradiction].
  constructor; assumption.
Qed.

(** *** [trim] and [split] on a file of lines *)

Lemma trimStart_app (l r : string) :
  trimStart l <> "" -> trimStart (l ++ r) = trimStart l ++ r.
Proof.
  induction l as [|c l IH]; cbn; [congruence|].
  destruct (isWhiteSpace c); [exact IH | reflexivity].
Qed.

Lemma trimEnd_snoc_ws (s : string) (c : ascii) :
  isWhiteSpace c = true -> trimEnd (s ++ String c "") = trimEnd s.
Proof.
  intros Hc. induction s as [|a s IH]; cbn.
  - now rewrite Hc.
  - now rewrite IH.
Qed.

Lemma trimEnd_app (s l : string) :
  trimEnd l <> "" -> trimEnd (s ++ l) = s ++ trimEnd l.
Proof.
  intros Hl. induction s as [|a s IH]; cbn; [reflexivity|].
  rewrite IH. destruct (s ++ trimEnd l) eqn:E; [|reflexivity].
  destruct s; cbn in E; congruence.
Qed.

Lemma hasLF_trimStart (l : string) :
  hasLF l = false -> hasLF (trimStart l) = false.
Proof.
  induction l as [|c l IH]; cbn; [reflexivity|].
  intros H. apply orb_false_iff in H as [Hc Hl].
  destruct (isWhiteSpace c); [auto|]. cbn. now rewrite Hc, Hl.
Qed.

Lemma hasLF_trimEnd (l : string) :
  hasLF l = false -> hasLF (trimEnd l) = false.
Proof.
  induction l as [|c l IH]; cbn; [reflexivity|].
  intros H. apply orb_false_iff in H as [Hc Hl].
  specialize (IH Hl). destruct (trimEnd l).
  - destruct (isWhiteSpace c); cbn; [reflexivity|]. now rewrite Hc.
  - cbn in *. now rewrite Hc, IH.
Qed.

Lemma splitLines_line (l : string) :
  hasLF l = false -> splitLines l = [l].
Proof.
  induction l as [|c l IH]; cbn; [reflexivity|].
  intros H. apply orb_false_iff in H as [Hc Hl].
  now rewrite Hc, (IH Hl).
Qed.

Lemma splitLines_cons (l r : string) :
  hasLF l = false -> splitLines (l ++ String LF r) = l :: splitLines r.
Proof.
  induction l as [|c l IH]; cbn [append splitLines hasLF].
  - now rewrite Ascii.eqb_refl.
  - intros H. apply orb_false_iff in H as [Hc Hl].
    now rewrite Hc, (IH Hl).
Qed.

Lemma splitLines_joinLines (lines : list string) :
  lines <> [] ->
  Forall (fun l => hasLF l = false) lines ->
  splitLines (joinLines lines) = lines.
Proof.
  intros Hne H. induction H as [|l rest Hl Hrest IH]; [congruence|].
  destruct rest as [|l2 rest].
  - cbn. now apply splitLines_line.
  - cbn [joinLines]. rewrite splitLines_cons by assumption.
    f_equal. apply IH. congruence.
Qed.

Lemma joinLines_snoc_nonempty (ls : list string) (l : string) :
  l <> "" -> joinLines (ls ++ [l]) <> "".
Proof.
  intros Hl. destruct ls as [|a ls]; cbn; [exact Hl|].
  destruct (ls ++ [l])%list eqn:E.
  - destruct ls; discriminate.
  - destruct a; cbn; congruence.
Qed.

Lemma trimEnd_unlines (ls : list string) (l : string) :
  trimEnd l <> "" ->
  trimEnd (unlines (ls ++ [l])) = joinLines (ls ++ [trimEnd l]).
Proof.
  intros Hl. induction ls as [|a ls IH].
  - cbn. apply trimEnd_snoc_ws. reflexivity.
  - cbn [app unlines].
    assert (Hrest : trimEnd (String LF (unlines (ls ++ [l])))
                    = String LF (joinLines (ls ++ [trimEnd l]))).
    { cbn [trimEnd]. rewrite IH.
      pose proof (joinLines_snoc_nonempty ls (trimEnd l) Hl) as Hne.
      destruct (joinLines (ls ++ [trimEnd l])); [congruence|reflexivity]. }
    rewrite trimEnd_app by (rewrite Hrest; discriminate).
    rewrite Hrest. cbn [joinLines].
    destruct (ls ++ [trimEnd l])%list eqn:E; [destruct ls; discriminate|].
    reflexivity.
Qed.

(** A ledger of complete lines whose first and last lines are well formed
    is read back as the records of its well-formed lines. *)
Lemma loadUsageLog_unlines {jsonLaws : JSONLaws} (w : World)
  (first last : string) (mid : list string) :
  Forall (fun l => hasLF l = false) (first :: mid ++ [last]) ->
  JSON_parse first <> None ->
  JSON_parse last <> None ->
  usageFile w = Some (unlines (first :: mid ++ [last])) ->
  loadUsageLog w = wellFormedEntries (first :: mid ++ [last]).
Proof.
  intros HLF Hfirst Hlast Hfile.
  destruct (JSON_parse first) as [e1|] eqn:E1; [clear Hfirst|congruence].
  destruct (JSON_parse last) as [e2|] eqn:E2; [clear Hlast|congruence].
  pose proof (parse_trimStart _ _ E1) as T1.
  pose proof (parse_trimEnd _ _ E2) as T2.
  assert (N1 : trimStart first <> "").
  { intros H0. rewrite H0, parse_empty in T1. discriminate. }
  assert (N2 : trimEnd last <> "").
  { intros H0. rewrite H0, parse_empty in T2. discriminate. }
  assert (Hraw : trim (unlines (first :: mid ++ [last]))
                 = joinLines ((trimStart first :: mid) ++ [trimEnd last])).
  { unfold trim. cbn [unlines]. rewrite trimStart_app by exact N1.
    change (trimStart first ++ String LF (unlines (mid ++ [last])))
      with (unlines ((trimStart first :: mid) ++ [last])).
    now apply trimEnd_unlines. }
  assert (HLF' : Forall (fun l => hasLF l = false)
                   ((trimStart first :: mid) ++ [trimEnd last])).
  { inversion HLF as [|? ? Hf Hrest]; subst.
    apply Forall_app in Hrest as [Hmid Hl].
    inversion Hl; subst.
    cbn [app]. constructor; [now apply hasLF_trimStart|].
    apply Forall_app. split; [assumption|].
    constructor; [now apply hasLF_trimEnd | constructor]. }
  unfold loadUsageLog. rewrite Hfile, Hraw.
  destruct (String.eqb_spec
              (joinLines ((trimStart first :: mid) ++ [trimEnd last])) "")
    as [Hempty|_].
  { exfalso. revert Hempty. now apply joinLines_snoc_nonempty. }
  rewrite splitLines_joinLines by (assumption || (cbn; discriminate)).
  rewrite parseLines_spec. cbn [app wellFormedEntries].
  rewrite T1, E1, !wellFormedEntries_app. cbn [wellFormedEntries].
  now rewrite T2, E2.
Qed.

(** C9.  [loadUsageLog] returns the records of exactly the lines that
    [JSON.parse] accepts, in the order of the file (the lines being those
    of the trimmed content, as the code splits it), and never fails.
    In particular a malformed line between well-formed lines costs
    nothing: every line before and after it is returned, in order. *)
Theorem loadUsageLog_tolerant {jsonLaws : JSONLaws} :
  (forall w : World,
     loadUsageLog w
       = match usageFile w with
         | None => []
         | Some content => wellFormedEntries (splitLines (trim content))
         end)
  /\ (forall (w : World) (before after : list string) (bad : string),
        before <> [] -> after <> [] ->
        Forall wellFormedLine (before ++ after) ->
        hasLF bad = false -> JSON_parse bad = None ->
        usageFile w = Some (unlines (before ++ bad :: after)) ->
        Forall2 parsedAs (before ++ after) (loadUsageLog w)).
Proof.
  split.
  - intros w. unfold loadUsageLog. destruct (usageFile w) as [content|]; [|reflexivity].
    destruct (String.eqb_spec (trim content) "") as [E|_].
    + rewrite E. cbn. now rewrite parse_empty.
    + now rewrite parseLines_spec.
  - intros w before after bad Hb Ha Hwf HbadLF Hbad Hfile.
    destruct before as [|first before]; [congruence|clear Hb].
    destruct (exists_last Ha) as (after' & last & ->). clear Ha.
    assert (Hshape : ((first :: before) ++ bad :: after' ++ [last])%list
                     = (first :: (before ++ bad :: after') ++ [last])%list).
    { cbn [app]. now rewrite <- app_assoc. }
    rewrite Hshape in Hfile.
    pose proof Hwf as Hwf'.
    apply Forall_app in Hwf' as [Hbefore Hafter].
    inversion Hbefore as [|? ? [HfLF Hfp] Hbefore']; subst.
    apply Forall_app in Hafter as [Hafter' Hlast].
    inversion Hlast as [|? ? [HlLF Hlp] _]; subst.
    rewrite (loadUsageLog_unlines w first last (before ++ bad :: after')).
    + rewrite <- Hshape, wellFormedEntries_skip by assumption.
      now apply wellFormedEntries_all.
    + constructor; [assumption|].
      rewrite !Forall_app. repeat split.
      * revert Hbefore'. apply Forall_impl. now intros ? [].
      * constructor; [assumption|].
        revert Hafter'. apply Forall_impl. now intros ? [].
      * constructor; [assumption|constructor].
    + assumption.
    + assumption.
    + assumption.
Qed.

End LedgerFacts.

(* --------------------------------------------------------------------- *)
(** ** Validation before upload *)
(* --------------------------------------------------------------------- *)

Section ValidationFacts.

Context {N : JSNumber} {rt : Runtime}.

Lemma lookup_In {V : Type} (table : list (string * V)) (key : string) (v : V) :
  lookup table key = Some v -> In (key, v) table.
Proof.
  induction table as [|[k v'] rest IH]; cbn; [discriminate|].
  destruct (String.eqb_spec k key) as [->|_].
  - intros [= ->]. now left.
  - intros H. right. now apply IH.
Qed.

(** Every supported extension has a category, and the limit the code
    looks up for it is the ceiling of that category. *)
Lemma supported_extension (ext mediaType : string) :
  lookup MIME_MAP ext = Some mediaType ->
  exists mediaCategory sizeLimit,
    lookup CATEGORY_MAP ext = Some mediaCategory
    /\ lookup SIZE_LIMITS mediaCategory = Some sizeLimit
    /\ ceilingOf mediaCategory = Some sizeLimit.
Proof.
  intros H. apply lookup_In in H. cbn in H.
  repeat (destruct H as [[= <- <-]|H];
          [eexists; eexists; repeat split; reflexivity|]).
  contradiction.
Qed.

(** C7.  An upload of a file with an unsupported extension throws
    UnsupportedType, and an upload of a file larger than the ceiling of
    its category throws FileTooLarge; in both cases the state is exactly
    as before: no request has been made and nothing has been written to
    the ledger. *)
Theorem uploadMedia_validation (filePath : string)
  (accountName : option string) (w : World) :
  let ext := toLowerCase (path_extname filePath) in
  (lookup MIME_MAP ext = None ->
   uploadMedia filePath accountName w = (Throw (UnsupportedType ext), w))
  /\ (forall mediaType mediaCategory sizeLimit fileSize,
        lookup MIME_MAP ext = Some mediaType ->
        lookup CATEGORY_MAP ext = Some mediaCategory ->
        ceilingOf mediaCategory = Some sizeLimit ->
        lookup (fileSizes w) filePath = Some fileSize ->
        sizeLimit < fileSize ->
        uploadMedia filePath accountName w
          = (Throw (FileTooLarge fileSize sizeLimit mediaCategory), w)).
Proof.
  cbn zeta. split.
  - intros H. unfold uploadMedia. now rewrite H.
  - intros mediaType mediaCategory sizeLimit fileSize Hm Hc Hl Hs Hlt.
    destruct (supported_extension _ _ Hm) as (c & l & Hc' & Hl' & Hceil).
    rewrite Hc in Hc'. injection Hc' as <-.
    rewrite Hl in Hceil. injection Hceil as <-.
    unfold uploadMedia. rewrite Hm, Hc. cbn [nullish]. rewrite Hl'.
    cbn [nullish]. unfold bind, statSync. rewrite Hs.
    apply Z.ltb_lt in Hlt. now rewrite Hlt.
Qed.

End ValidationFacts.

(* --------------------------------------------------------------------- *)
(** ** The polling loop *)
(* --------------------------------------------------------------------- *)

Section PollingFacts.

Context {N : JSNumber} {rt : Runtime}.

Lemma checkBudget_unlimited (endpoint : string) (w : World) :
  unlimited w = true -> checkBudget endpoint w = (Ok tt, w).
Proof.
  unfold unlimited, checkBudget.
  destruct (daily (loadBudget w)) as [limit|]; [|reflexivity].
  now intros ->.
Qed.







End PollingFacts.

(* --------------------------------------------------------------------- *)
(** ** The APPEND loop *)
(* --------------------------------------------------------------------- *)

Lemma ceilDiv_bounds (a b : Z) :
  0 <= a -> 0 < b -> (ceilDiv a b - 1) * b < a <= ceilDiv a b * b.
Proof.
  intros Ha Hb. unfold ceilDiv.
  pose proof (Z.div_mod (a + b - 1) b ltac:(lia)) as Hdm.
  pose proof (Z.mod_pos_bound (a + b - 1) b Hb) as Hm.
  nia.
Qed.

Lemma length_Zseq (start : Z) (count : nat) :
  List.length (Zseq start count) = count.
Proof.
  revert start. induction count as [|k IH]; intros start; cbn; [reflexivity|].
  now rewrite IH.
Qed.

Lemma In_Zseq (x start : Z) (count : nat) :
  In x (Zseq start count) <-> start <= x < start + Z.of_nat count.
Proof.
  revert start. induction count as [|k IH]; intros start; cbn [Zseq In].
  - lia.
  - rewrite IH. lia.
Qed.

Section AppendFacts.

Context {N : JSNumber} {rt : Runtime}.

Lemma sentSegments_app (t1 t2 : list Event) :
  sentSegments (t1 ++ t2) = (sentSegments t1 ++ sentSegments t2)%list.
Proof.
  induction t1 as [|e t1 IH]; cbn; [reflexivity|].
  destruct e; cbn; now rewrite IH.
Qed.

(** The invariant of the loop: before the segment of index [i] is sent,
    [bytesRead] is [i] full chunks, or the whole file once it is done. *)
Lemma appendLoop_segments (mediaId : string) (fileSize : Z) :
  0 <= fileSize ->
  forall (k : nat) (i : Z) (w : World) (oks rest : list FetchResponse),
    0 <= i ->
    i + Z.of_nat k = ceilDiv fileSize CHUNK_SIZE ->
    fetchReplies w = (oks ++ rest)%list ->
    List.length oks = k ->
    forallb resp_ok oks = true ->
    exists w',
      appendLoop mediaId fileSize (Z.min (i * CHUNK_SIZE) fileSize) i w
        = (Ok (fileSize, i + Z.of_nat k), w')
      /\ sentSegments (trace w')
         = (sentSegments (trace w) ++ map (segment fileSize) (Zseq i k))%list
      /\ fetchReplies w' = rest
      /\ usageFile w' = usageFile w.
Proof.
  intros Hsize.
  pose proof (ceilDiv_bounds fileSize CHUNK_SIZE Hsize ltac:(reflexivity)) as Hn.
  induction k as [|k IH]; intros i w oks rest Hi Hik Hreplies Hlen Hoks.
  - exists w. rewrite appendLoop_equation.
    replace (Z.min (i * CHUNK_SIZE) fileSize) with fileSize by lia.
    rewrite Z.ltb_irrefl, Z.add_0_r. cbn [Zseq map].
    destruct oks; [|discriminate]. rewrite app_nil_r. auto.
  - destruct oks as [|resp oks]; [discriminate|].
    cbn [forallb] in Hoks. apply andb_true_iff in Hoks as [Hok Hoks].
    injection Hlen as Hlen.
    assert (Hlt : i * CHUNK_SIZE < fileSize) by nia.
    set (w1 := withFetchReplies (oks ++ rest)
                 (emit (FetchAppend (appendUrl mediaId) i (i * CHUNK_SIZE)
                          (chunkLenAt fileSize (i * CHUNK_SIZE))) w)).
    set (w2 := emit (UploadProgress
                       (i * CHUNK_SIZE + chunkLenAt fileSize (i * CHUNK_SIZE))
                       fileSize) w1).
    destruct (IH (i + 1) w2 oks rest) as (w' & Hrun & Hsent & Hrest & Hfile);
      try assumption; try lia.
    { reflexivity. }
    exists w'.
    replace (i + Z.of_nat (S k)) with (i + 1 + Z.of_nat k) by lia.
    split; [|split; [|split]]; try assumption.
    + rewrite appendLoop_equation.
      replace (Z.min (i * CHUNK_SIZE) fileSize) with (i * CHUNK_SIZE) by lia.
      apply Z.ltb_lt in Hlt. rewrite Hlt.
      unfold fetchAppend. cbn [fetchReplies emit]. rewrite Hreplies.
      cbn [app]. rewrite Hok. cbn [negb].
      fold w1. fold w2. rewrite <- Hrun. f_equal.
      apply Z.ltb_lt in Hlt. unfold chunkLenAt. lia.
    + rewrite Hsent. unfold w2, w1, emit; cbn [trace withFetchReplies].
      rewrite !sentSegments_app. cbn [sentSegments Zseq map].
      rewrite app_nil_r, <- app_assoc. cbn [app].
      unfold segment at 2, chunkLenAt. reflexivity.
Qed.

(** C5.  For a file of [fileSize] bytes whose segments the server all
    accepts, the APPEND loop stops with [bytesRead = fileSize] after
    exactly [ceil(fileSize / 5 MiB)] requests; they carry the indices
    0, 1, 2, ... in this order, segment [i] starting at byte [i * 5 MiB];
    no chunk is empty or longer than 5 MiB, and the bytes sent up to and
    including any segment never exceed [fileSize]. *)
Theorem appendLoop_chunks (mediaId : string) (fileSize : Z) (w : World)
  (oks rest : list FetchResponse) :
  0 <= fileSize ->
  let n := ceilDiv fileSize CHUNK_SIZE in
  fetchReplies w = (oks ++ rest)%list ->
  Z.of_nat (List.length oks) = n ->
  forallb resp_ok oks = true ->
  let run := appendLoop mediaId fileSize 0 0 w in
  let segments := map (segment fileSize) (Zseq 0 (Z.to_nat n)) in
  fst run = Ok (fileSize, n)
  /\ sentSegments (trace (snd run)) = (sentSegments (trace w) ++ segments)%list
  /\ Z.of_nat (List.length segments) = n
  /\ map (fun s => fst (fst s)) segments = Zseq 0 (Z.to_nat n)
  /\ (forall i offset len,
        In (i, offset, len) segments ->
        0 <= i < n
        /\ offset = i * CHUNK_SIZE
        /\ 0 < len <= CHUNK_SIZE
        /\ offset + len <= fileSize).
Proof.
  intros Hsize n Hreplies Hlen Hoks run segments.
  pose proof (ceilDiv_bounds fileSize CHUNK_SIZE Hsize ltac:(reflexivity)) as Hn.
  fold n in Hn.
  destruct (appendLoop_segments mediaId fileSize Hsize
              (List.length oks) 0 w oks rest) as (w' & Hrun & Hsent & _);
    try assumption; try reflexivity; try lia.
  change (Z.min (0 * CHUNK_SIZE) fileSize) with (Z.min 0 fileSize) in Hrun.
  rewrite Z.min_l in Hrun by lia. fold run in Hrun.
  assert (Hk : Z.to_nat n = List.length oks) by lia.
  unfold segments. rewrite Hk, Hrun. cbn [fst snd].
  split; [now rewrite <- Hlen|].
  split; [exact Hsent|].
  split; [now rewrite length_map, length_Zseq|].
  split.
  - rewrite map_map. cbn [segment fst]. apply map_id.
  - intros i offset len Hin. apply in_map_iff in Hin as (j & [= <- <- <-] & Hj).
    apply In_Zseq in Hj. unfold CHUNK_SIZE in *. lia.
Qed.

End AppendFacts.

(* ===================================================================== *)
(** * More of the budget code *)
(* ===================================================================== *)

Section BudgetBranches.

Context {N : JSNumber} {rt : Runtime}.

(** Over the limit with action [warn]: one warning is written and the
    call is let through; an intercepted operation then runs as usual, after
    its ledger line. *)
Theorem checkBudget_warn_proceeds (endpoint : string) (w : World) (limit : num) :
  let todaySpend := computeTodaySpend w (loadUsageLog w) in
  let callCost := estimateCost endpoint in
  daily (loadBudget w) = Some limit ->
  truthy limit = true ->
  leb (add todaySpend callCost) limit = false ->
  action (loadBudget w) = warn ->
  let warned := emit (BudgetWarning limit todaySpend callCost) w in
  checkBudget endpoint w = (Ok tt, warned)
  /\ forall prop nsProp nsValue args,
       prop ++ "." ++ nsProp = endpoint ->
       intercepted prop nsProp nsValue args w
         = nsValue args
             (withUsageFile
                (appendFileSync (usageLine endpoint w) (usageFile w)) warned).
Proof.
  intros todaySpend callCost Hd Ht Hle Ha warned.
  assert (Hcheck : checkBudget endpoint w = (Ok tt, warned)).
  { unfold checkBudget. rewrite Hd, Ht. cbn [negb].
    fold todaySpend callCost. rewrite Hle, Ha. reflexivity. }
  split; [exact Hcheck|].
  intros prop nsProp nsValue args Hep.
  unfold intercepted, bind. rewrite Hep, Hcheck. reflexivity.
Qed.



(** [xc budget reset] puts the budget back to "no limit, warn": from then
    on the check lets every call through and writes nothing, whatever the
    ledger holds. *)
Lemma resetBudget_lifts_limit (endpoint : string) (w : World) :
  let w1 := snd (resetBudget w) in
  fst (resetBudget w) = Ok tt
  /\ loadBudget w1 = {| daily := None; action := warn |}
  /\ usageFile w1 = usageFile w
  /\ trace w1 = trace w
  /\ checkBudget endpoint w1 = (Ok tt, w1).
Proof. repeat split. Qed.

(** The actions [xc budget set] accepts. *)
Lemma VALID_ACTIONS_spec (s : string) (a : BudgetAction) :
  lookup VALID_ACTIONS s = Some a
  <-> (s = "block" /\ a = block) \/ (s = "warn" /\ a = warn)
      \/ (s = "confirm" /\ a = confirm).
Proof.
  split.
  - unfold VALID_ACTIONS. cbn [lookup].
    destruct (String.eqb_spec "block" s) as [<-|_]; [intros [= <-]; auto|].
    destruct (String.eqb_spec "warn" s) as [<-|_]; [intros [= <-]; auto|].
    destruct (String.eqb_spec "confirm" s) as [<-|_]; [intros [= <-]; auto|].
    discriminate.
  - intros [[-> ->]|[[-> ->]|[-> ->]]]; reflexivity.
Qed.


End BudgetBranches.

(* ===================================================================== *)
(** * More of the ledger code *)
(* ===================================================================== *)

(** The record [logApiCall] builds for an endpoint. *)
Definition usageEntryFor {N : JSNumber} (endpoint : string) (w : World)
  : UsageEntry :=
  {| timestamp := nowISO w;
     endpoint := endpoint;
     method := inferMethod endpoint;
     estimatedCost := estimateCost endpoint |}.

(** The ledger file is made of these complete lines (no file at all
    counts as no line). *)
Definition ledgerLines {N : JSNumber} (w : World) (lines : list string) : Prop :=
  usageFile w = Some (unlines lines) \/ (lines = [] /\ usageFile w = None).

Fixpoint allWhiteSpace (s : string) : bool :=
  match s with
  | EmptyString => true
  | String c r => isWhiteSpace c && allWhiteSpace r
  end.

Section LedgerRoundTrip.

Context {N : JSNumber} {rt : Runtime}.

Lemma append_assoc (a b c : string) : (a ++ b) ++ c = a ++ (b ++ c).
Proof.
  induction a as [|x a IH]; cbn [append]; [reflexivity|]. now rewrite IH.
Qed.

Lemma unlines_app (l1 l2 : list string) :
  unlines (l1 ++ l2) = unlines l1 ++ unlines l2.
Proof.
  induction l1 as [|l rest IH]; cbn [app unlines]; [reflexivity|].
  rewrite IH, append_assoc. reflexivity.
Qed.


Lemma trimStart_allWhiteSpace (s : string) :
  allWhiteSpace s = true -> trimStart s = "".
Proof.
  induction s as [|c s IH]; cbn; [reflexivity|].
  intros H. apply andb_true_iff in H as [-> H]. auto.
Qed.

(** A ledger of one line. *)
Lemma loadUsageLog_one_line {jsonLaws : JSONLaws} (w : World) (l : string)
  (e : UsageEntry) :
  hasLF l = false -> JSON_parse l = Some e ->
  usageFile w = Some (unlines [l]) ->
  loadUsageLog w = [e].
Proof.
  intros HLF Hparse Hfile.
  pose proof (parse_trimStart _ _ Hparse) as T1.
  pose proof (parse_trimEnd _ _ T1) as T2.
  assert (N1 : trimStart l <> "").
  { intros H0. rewrite H0, parse_empty in T1. discriminate. }
  assert (N2 : trimEnd (trimStart l) <> "").
  { intros H0. rewrite H0, parse_empty in T2. discriminate. }
  unfold loadUsageLog. rewrite Hfile. cbn [unlines]. unfold trim.
  rewrite trimStart_app by exact N1.
  rewrite trimEnd_snoc_ws by reflexivity.
  destruct (String.eqb_spec (trimEnd (trimStart l)) "") as [E|_]; [contradiction|].
  rewrite splitLines_line
    by (apply hasLF_trimEnd; now apply hasLF_trimStart).
  cbn [parseLines]. now rewrite T2.
Qed.

(** A ledger of well-formed complete lines reads back as the records of
    its lines, one for one. *)
Lemma loadUsageLog_ledgerLines {jsonLaws : JSONLaws} (w : World)
  (lines : list string) :
  ledgerLines w lines ->
  Forall wellFormedLine lines ->
  loadUsageLog w = wellFormedEntries lines.
Proof.
  intros Hfile Hwf.
  destruct lines as [|first rest].
  - unfold loadUsageLog. destruct Hfile as [-> | [_ ->]]; reflexivity.
  - destruct Hfile as [Hfile | [Hnil _]]; [|discriminate].
    inversion Hwf as [|? ? [HfLF Hfp] Hrest]; subst.
    destruct rest as [|l2 rest'].
    + destruct (JSON_parse first) as [e|] eqn:E; [|contradiction].
      rewrite (loadUsageLog_one_line w first e HfLF E Hfile).
      cbn. now rewrite E.
    + assert (Hne : l2 :: rest' <> []) by discriminate.
      destruct (exists_last Hne) as (mid & last & Hshape).
      rewrite Hshape in *.
      apply Forall_app in Hrest as [Hmid Hlast].
      inversion Hlast as [|? ? [HlLF Hlp] _]; subst.
      apply loadUsageLog_unlines; try assumption.
      constructor; [assumption|].
      apply Forall_app. split.
      * revert Hmid. apply Forall_impl. now intros ? [].
      * constructor; [assumption|constructor].
Qed.

(** What [logApiCall] leaves in a ledger of well-formed lines, when the
    line it writes is one that [JSON.parse] reads back. *)
Lemma logApiCall_ledgerLines (endpoint : string) (w : World)
  (lines : list string) :
  ledgerLines w lines ->
  ledgerLines (snd (logApiCall endpoint w))
    (lines ++ [JSON_stringify (usageEntryFor endpoint w)]).
Proof.
  intros Hfile. left. cbn [logApiCall snd withUsageFile usageFile].
  rewrite unlines_app. cbn [unlines].
  destruct Hfile as [-> | [-> ->]]; reflexivity.
Qed.

(** A call that is logged is read back: after [logApiCall] on a ledger of
    well-formed lines, [loadUsageLog] returns the records it returned
    before followed by the record of this call, and the ledger is again
    made of well-formed lines. *)
Theorem logApiCall_read_back {jsonLaws : JSONLaws} (endpoint : string)
  (w : World) (lines : list string) :
  let e := usageEntryFor endpoint w in
  let w1 := snd (logApiCall endpoint w) in
  ledgerLines w lines ->
  Forall wellFormedLine lines ->
  JSON_parse (JSON_stringify e) = Some e ->
  hasLF (JSON_stringify e) = false ->
  loadUsageLog w1 = (loadUsageLog w ++ [e])%list
  /\ ledgerLines w1 (lines ++ [JSON_stringify e])
  /\ Forall wellFormedLine (lines ++ [JSON_stringify e]).
Proof.
  intros e w1 Hfile Hwf Hparse HLF.
  assert (Hwf1 : Forall wellFormedLine (lines ++ [JSON_stringify e])).
  { apply Forall_app. split; [assumption|].
    constructor; [|constructor]. split; [assumption|]. rewrite Hparse. discriminate. }
  pose proof (logApiCall_ledgerLines endpoint w lines Hfile) as Hfile1.
  split; [|split; assumption].
  unfold w1. rewrite (loadUsageLog_ledgerLines _ _ Hfile1 Hwf1).
  rewrite (loadUsageLog_ledgerLines _ _ Hfile Hwf).
  rewrite wellFormedEntries_app. cbn [wellFormedEntries].
  fold e. now rewrite Hparse.
Qed.


(** No ledger file, an empty one, or one of white space only: no record,
    whatever [JSON.parse] would make of the text. *)
Theorem loadUsageLog_blank (w : World) :
  (usageFile w = None
   \/ exists content, usageFile w = Some content /\ allWhiteSpace content = true) ->
  loadUsageLog w = [].
Proof.
  unfold loadUsageLog. intros [-> | (content & -> & Hwhite)]; [reflexivity|].
  unfold trim. now rewrite trimStart_allWhiteSpace.
Qed.


End LedgerRoundTrip.

(* ===================================================================== *)
(** * src/commands/cost.ts *)
(* ===================================================================== *)

(** [arr.slice(start)]: a negative start counts from the end, and NaN
    ([None]) is 0. *)
Definition sliceFrom {A : Type} (start : option Z) (arr : list A) : list A :=
  let len := Z.of_nat (List.length arr) in
  let relative := nullish start 0 in
  let k := if relative <? 0 then Z.max (len + relative) 0
           else Z.min relative len in
  skipn (Z.to_nat k) arr.

(** [-limit] on the result of [parseInt]: NaN stays NaN. *)
Definition negate (limit : option Z) : option Z :=
  match limit with
  | Some n => Some (- n)
  | None => None
  end.

(** [str.slice(0, 10)] *)
Definition slice_0_10 (s : string) : string := substring 0 10 s.

(** [map.set(key, value)] on a [Map] kept in insertion order. *)
Fixpoint mapSet {V : Type} (m : list (string * V)) (key : string) (value : V)
  : list (string * V) :=
  match m with
  | [] => [(key, value)]
  | (k, v) :: rest =>
      if String.eqb k key then (k, value) :: rest
      else (k, v) :: mapSet rest key value
  end.

Section CostCommand.

Context {N : JSNumber} {rt : Runtime}.

(** [xc cost log --limit <n>]: the entries it lists; [limit] is
    [parseInt(opts.limit, 10)]. *)
Definition costLogRecent (limit : option Z) (w : World) : list UsageEntry :=
  let entries := loadUsageLog w in
  sliceFrom (negate limit) entries.

(** [xc cost --daily]: the loop that fills [byDay]. *)
Fixpoint byDayLoop (entries : list UsageEntry) (byDay : list (string * num))
  : list (string * num) :=
  match entries with
  | [] => byDay
  | entry :: rest =>
      let date := slice_0_10 (timestamp entry) in
      byDayLoop rest
        (mapSet byDay date
           (add (nullish (lookup byDay date) zero) (estimatedCost entry)))
  end.

Definition dailyBreakdown (entries : list UsageEntry) : list (string * num) :=
  byDayLoop entries [].

(** The costs of the entries of one date, summed in ledger order on top
    of [total]. *)
Fixpoint dayTotal (date : string) (entries : list UsageEntry) (total : num) : num :=
  match entries with
  | [] => total
  | entry :: rest =>
      if String.eqb (slice_0_10 (timestamp entry)) date
      then dayTotal date rest (add total (estimatedCost entry))
      else dayTotal date rest total
  end.

Definition hasDate (date : string) (entries : list UsageEntry) : bool :=
  existsb (fun entry => String.eqb (slice_0_10 (timestamp entry)) date) entries.

Lemma lookup_mapSet {V : Type} (m : list (string * V)) (key key' : string) (value : V) :
  lookup (mapSet m key value) key'
    = if String.eqb key key' then Some value else lookup m key'.
Proof.
  induction m as [|[k v] rest IH]; cbn [mapSet lookup].
  - reflexivity.
  - destruct (String.eqb_spec k key) as [->|Hk]; cbn [lookup].
    + destruct (String.eqb key key'); reflexivity.
    + rewrite IH. destruct (String.eqb_spec k key') as [->|_]; [|reflexivity].
      destruct (String.eqb_spec key key'); [congruence|reflexivity].
Qed.

Lemma keys_mapSet {V : Type} (m : list (string * V)) (key : string) (value : V) :
  NoDup (map fst m) ->
  NoDup (map fst (mapSet m key value))
  /\ forall k, In k (map fst (mapSet m key value)) <-> k = key \/ In k (map fst m).
Proof.
  induction m as [|[k v] rest IH]; cbn [mapSet map fst].
  - intros _. split; [repeat constructor; intros []|]. intros k'. cbn. intuition.
  - intros Hnd. inversion Hnd as [|? ? Hnotin Hrest]; subst.
    destruct (String.eqb_spec k key) as [->|Hk]; cbn [map fst].
    + split; [assumption|]. intros k'. cbn. intuition.
    + destruct (IH Hrest) as [Hnd' Hin]. split.
      * constructor; [|assumption]. rewrite Hin. intros [->|H]; [congruence|contradiction].
      * intros k'. cbn [In]. rewrite Hin. intuition.
Qed.

Lemma dayTotal_absent (date : string) (entries : list UsageEntry) (total : num) :
  hasDate date entries = false -> dayTotal date entries total = total.
Proof.
  revert total. induction entries as [|entry rest IH]; intros total; cbn;
    [reflexivity|].
  intros H. apply orb_false_iff in H as [-> H]. now apply IH.
Qed.

Lemma byDayLoop_spec (entries : list UsageEntry) :
  forall (byDay : list (string * num)),
    NoDup (map fst byDay) ->
    NoDup (map fst (byDayLoop entries byDay))
    /\ forall date,
         lookup (byDayLoop entries byDay) date
           = if hasDate date entries
             then Some (dayTotal date entries (nullish (lookup byDay date) zero))
             else lookup byDay date.
Proof.
  induction entries as [|entry rest IH]; intros byDay Hnd.
  - split; [assumption|reflexivity].
  - cbn [byDayLoop].
    set (d := slice_0_10 (timestamp entry)).
    set (v := add (nullish (lookup byDay d) zero) (estimatedCost entry)).
    destruct (IH (mapSet byDay d v)) as [Hnd' Hlook].
    { now apply keys_mapSet. }
    split; [assumption|].
    intros date. rewrite Hlook, lookup_mapSet.
    cbn [hasDate existsb dayTotal]. fold d. fold (hasDate date rest).
    destruct (String.eqb_spec d date) as [<-|Hne]; cbn [orb nullish].
    + fold v. destruct (hasDate d rest) eqn:E; [reflexivity|].
      now rewrite dayTotal_absent.
    + reflexivity.
Qed.

(** [xc cost log --limit n] lists the last [n] entries of the ledger when
    [n] is positive (all of them when there are fewer); with [--limit 0],
    or a limit that is not a number, it lists every entry; a negative
    limit [-k] leaves out the first [k] entries. *)
Theorem costLogRecent_limit (w : World) :
  let entries := loadUsageLog w in
  let len := Z.of_nat (List.length entries) in
  (forall n, 0 < n ->
     costLogRecent (Some n) w = skipn (Z.to_nat (len - n)) entries
     /\ Z.of_nat (List.length (costLogRecent (Some n) w)) = Z.min n len)
  /\ costLogRecent (Some 0) w = entries
  /\ costLogRecent None w = entries
  /\ (forall k, 0 < k ->
        costLogRecent (Some (- k)) w = skipn (Z.to_nat k) entries).
Proof.
  intros entries len. unfold costLogRecent. fold entries.
  unfold sliceFrom, negate, nullish. fold len.
  split; [|split; [|split]].
  - intros n Hn. destruct (Z.ltb_spec (- n) 0) as [_|]; [|lia].
    assert (Hk : Z.to_nat (Z.max (len + - n) 0) = Z.to_nat (len - n)) by lia.
    rewrite Hk. split; [reflexivity|].
    rewrite length_skipn. fold len. lia.
  - cbn [Z.opp Z.ltb Z.compare]. replace (Z.to_nat (Z.min 0 len)) with 0%nat by lia.
    reflexivity.
  - cbn [Z.ltb Z.compare]. replace (Z.to_nat (Z.min 0 len)) with 0%nat by lia.
    reflexivity.
  - intros k Hk. rewrite Z.opp_involutive.
    destruct (Z.ltb_spec k 0) as [|_]; [lia|].
    destruct (Z.min_spec k len) as [[_ ->]|[Hle ->]]; [reflexivity|].
    rewrite !skipn_all2; [reflexivity| |]; unfold len in *; lia.
Qed.

(** [xc cost --daily]: every date (the first ten characters of a
    timestamp) that occurs in the ledger gets exactly one row, no other
    date gets one, and the amount of a row is the sum, in ledger order
    and starting from 0, of the costs of the entries of that date. *)
Theorem dailyBreakdown_rows (entries : list UsageEntry) :
  NoDup (map fst (dailyBreakdown entries))
  /\ forall date,
       lookup (dailyBreakdown entries) date
         = if hasDate date entries
           then Some (dayTotal date entries zero)
           else None.
Proof.
  unfold dailyBreakdown.
  destruct (byDayLoop_spec entries [] (NoDup_nil _)) as [Hnd Hlook].
  split; [assumption|]. intros date. apply Hlook.
Qed.

End CostCommand.

(* ===================================================================== *)
(** * src/lib/config.ts and the client factory *)
(* ===================================================================== *)

Section ConfigAndClient.

Context {N : JSNumber} {rt : Runtime}.



(** The credentials [getClient] stores after a token refresh. *)
Definition refreshedAccount (account : Account) (now : Z) (tokens : OAuth2Token)
  : Account :=
  let a := auth account in
  {| auth := {| authType := authType a;
                bearerToken := bearerToken a;
                accessToken := Some (access_token tokens);
                refreshToken :=
                  Some (nullish (refresh_token tokens)
                                (nullish (refreshToken a) ""));
                clientId := clientId a;
                expiresAt := Some (now + expires_in tokens * 1000) |} |}.

(** The token is to be refreshed: it is expired or within 60 seconds of
    expiry; a missing expiry counts as 0. *)
Definition dueForRefresh (a : AuthCredential) (now : Z) : bool :=
  nullish (expiresAt a) 0 - 60000 <=? now.

(** The accounts [getClient] serves as they are. *)
Definition ready (account : Account) (now : Z) : Prop :=
  (authType (auth account) = "bearer"
   /\ truthyStr (bearerToken (auth account)) = true)
  \/ (authType (auth account) = "oauth2"
      /\ truthyStr (accessToken (auth account)) = true
      /\ dueForRefresh (auth account) now = false).

Lemma getClient_ready (accountName : option string) (w : World)
  (account : Account) :
  getAccount accountName w = Some account ->
  ready account (nowMs w) ->
  getClient accountName w = (Ok (wrapClient sdkClient), w).
Proof.
  intros Hacc H. unfold getClient. rewrite Hacc. cbn zeta.
  destruct H as [[-> ->] | (-> & -> & Hdue)]; cbn [String.eqb negb].
  - reflexivity.
  - unfold dueForRefresh in Hdue.
    replace (String.eqb "oauth2" "bearer") with false by reflexivity.
    replace (String.eqb "oauth2" "oauth2") with true by reflexivity.
    cbn [negb]. now rewrite Hdue.
Qed.


(** [getClient] on an OAuth2 account that is due for a refresh and has a
    refresh token and a client id: one refresh request is made.  When it
    is granted, the account is stored under the name asked for (under
    ["default"] when none was given) with the new access token, the new
    refresh token if one came, else the old one, and the expiry
    [now + expires_in * 1000]; when it is refused the error comes back
    and the account store is as before. *)
Theorem getClient_refreshes (accountName : option string) (w : World)
  (account : Account) (client token : string) (reply : OAuthReply)
  (rest : list OAuthReply) :
  getAccount accountName w = Some account ->
  authType (auth account) = "oauth2" ->
  truthyStr (accessToken (auth account)) = true ->
  dueForRefresh (auth account) (nowMs w) = true ->
  refreshToken (auth account) = Some token -> token <> "" ->
  clientId (auth account) = Some client -> client <> "" ->
  oauthReplies w = reply :: rest ->
  let run := getClient accountName w in
  trace (snd run) = (trace w ++ [RefreshNotice; TokenRefresh client token])%list
  /\ oauthReplies (snd run) = rest
  /\ match reply with
     | Granted tokens =>
         fst run = Ok (wrapClient sdkClient)
         /\ getAccount (Some (nullish accountName "default")) (snd run)
            = Some (refreshedAccount account (nowMs w) tokens)
     | Refused reason =>
         fst run = Throw (NetworkError reason)
         /\ config (snd run) = config w
     end.
Proof.
  intros Hacc Htype Haccess Hdue Htoken Htne Hclient Hcne Hreplies run.
  assert (Ht : truthyStr (refreshToken (auth account)) = true).
  { rewrite Htoken. cbn. destruct (String.eqb_spec token ""); [contradiction|reflexivity]. }
  assert (Hc : truthyStr (clientId (auth account)) = true).
  { rewrite Hclient. cbn. destruct (String.eqb_spec client ""); [contradiction|reflexivity]. }
  unfold run, getClient. rewrite Hacc. cbn zeta. rewrite Htype.
  replace (String.eqb "oauth2" "bearer") with false by reflexivity.
  replace (String.eqb "oauth2" "oauth2") with true by reflexivity.
  rewrite Haccess. cbn [negb]. unfold dueForRefresh in Hdue. rewrite Hdue.
  rewrite Ht, Hc. cbn [negb orb].
  unfold bind, log, refreshAccessToken. cbn [oauthReplies emit].
  rewrite Hreplies, Htoken, Hclient. cbn [nullish].
  destruct reply as [tokens|reason]; cbn [fst snd].
  - unfold setAccount, ret. cbn [fst snd trace oauthReplies withConfig
      withOauthReplies emit config nowMs].
    split; [now rewrite <- app_assoc|].
    split; [reflexivity|]. split; [reflexivity|].
    unfold getAccount. cbn [config withConfig accountTable lookup nullish].
    rewrite String.eqb_refl. unfold refreshedAccount.
    rewrite Htype, Htoken, Hclient. reflexivity.
  - cbn [trace oauthReplies withOauthReplies emit config].
    split; [now rewrite <- app_assoc|]. repeat split.
Qed.

(** The hypotheses of a refresh, in one place. *)
Definition refreshable (accountName : option string) (w : World)
  (account : Account) (client token : string) : Prop :=
  getAccount accountName w = Some account
  /\ authType (auth account) = "oauth2"
  /\ truthyStr (accessToken (auth account)) = true
  /\ dueForRefresh (auth account) (nowMs w) = true
  /\ refreshToken (auth account) = Some token /\ token <> ""
  /\ clientId (auth account) = Some client /\ client <> "".

Lemma getClient_granted (accountName : option string) (w : World)
  (account : Account) (client token : string) (tokens : OAuth2Token)
  (rest : list OAuthReply) :
  refreshable accountName w account client token ->
  oauthReplies w = Granted tokens :: rest ->
  getClient accountName w
    = (Ok (wrapClient sdkClient),
       withConfig
         {| defaultAccount := defaultAccount (config w);
            accountTable :=
              (nullish accountName "default",
               refreshedAccount account (nowMs w) tokens)
              :: accountTable (config w) |}
         (withOauthReplies rest
            (emit (TokenRefresh client token) (emit RefreshNotice w)))).
Proof.
  intros (Hacc & Htype & Haccess & Hdue & Htoken & Htne & Hclient & Hcne) Hreplies.
  assert (Ht : truthyStr (refreshToken (auth account)) = true).
  { rewrite Htoken. cbn. destruct (String.eqb_spec token ""); [contradiction|reflexivity]. }
  assert (Hc : truthyStr (clientId (auth account)) = true).
  { rewrite Hclient. cbn. destruct (String.eqb_spec client ""); [contradiction|reflexivity]. }
  unfold getClient. rewrite Hacc. cbn zeta. rewrite Htype.
  replace (String.eqb "oauth2" "bearer") with false by reflexivity.
  replace (String.eqb "oauth2" "oauth2") with true by reflexivity.
  rewrite Haccess. cbn [negb]. unfold dueForRefresh in Hdue. rewrite Hdue.
  rewrite Ht, Hc. cbn [negb orb].
  unfold bind, log, refreshAccessToken. cbn [oauthReplies emit].
  rewrite Hreplies, Htoken, Hclient. cbn [nullish].
  unfold setAccount, ret, refreshedAccount.
  cbn [config withOauthReplies emit nowMs flow_accessToken flow_refreshToken
       flow_expiresAt].
  rewrite Htype, Htoken, Hclient. reflexivity.
Qed.

(** Where the refreshed credentials are found again.  When the account
    was asked for by name, or the default account is the one named
    ["default"], the next [getAccount] with the same argument finds the
    refreshed credentials, and if the new access token is not empty and
    lasts more than 60 seconds the next [getClient] makes no request.
    When no name was given and the default account has another name, the
    refreshed credentials are stored under ["default"] and the next
    [getAccount] still finds the old ones. *)
Theorem getClient_refresh_found_again (accountName : option string) (w : World)
  (account : Account) (client token : string) (tokens : OAuth2Token)
  (rest : list OAuthReply) :
  refreshable accountName w account client token ->
  oauthReplies w = Granted tokens :: rest ->
  let w1 := snd (getClient accountName w) in
  ((accountName <> None \/ defaultAccount (config w) = "default") ->
   getAccount accountName w1
     = Some (refreshedAccount account (nowMs w) tokens)
   /\ (access_token tokens <> "" ->
       60000 < expires_in tokens * 1000 ->
       getClient accountName w1 = (Ok (wrapClient sdkClient), w1)))
  /\ (accountName = None -> defaultAccount (config w) <> "default" ->
      getAccount None w1 = Some account).
Proof.
  intros Hr Hreplies w1.
  pose proof Hr as (Hacc & Htype & _).
  unfold w1. rewrite (getClient_granted _ _ _ _ _ _ _ Hr Hreplies). cbn [snd].
  set (w2 := withConfig _ _).
  assert (Hnow : nowMs w2 = nowMs w) by reflexivity.
  split.
  - intros Hname.
    assert (Hfound : getAccount accountName w2
                     = Some (refreshedAccount account (nowMs w) tokens)).
    { unfold getAccount, w2.
      cbn [config withConfig accountTable defaultAccount lookup].
      destruct accountName as [name|]; cbn [nullish].
      - now rewrite String.eqb_refl.
      - destruct Hname as [Hname| ->]; [congruence|reflexivity]. }
    split; [exact Hfound|].
    intros Haccess Hlong. apply (getClient_ready _ _ _ Hfound). right.
    unfold refreshedAccount, dueForRefresh.
    cbn [auth authType accessToken expiresAt nullish truthyStr].
    rewrite Htype, Hnow. repeat split.
    + destruct (String.eqb_spec (access_token tokens) "");
        [contradiction|reflexivity].
    + apply Z.leb_gt. lia.
  - intros -> Hdefault. unfold getAccount, w2.
    cbn [config withConfig accountTable defaultAccount lookup nullish].
    destruct (String.eqb_spec "default" (defaultAccount (config w)));
      [congruence|exact Hacc].
Qed.


End ConfigAndClient.

(* ===================================================================== *)
(** * More of the interceptor and of the media upload *)
(* ===================================================================== *)

(** What the network makes of one SDK operation. *)
Definition outcomeOf {N : JSNumber} (r : SdkReply) : Outcome SdkResponse :=
  match r with
  | Replied resp => Ok resp
  | Rejected reason => Throw (NetworkError reason)
  end.

(** The state after one operation of the wrapped client that the budget
    let through: its ledger line written, its request made, the network's
    answer taken. *)
Definition afterCall {N : JSNumber} {rt : Runtime} (ns op : string)
  (args : SdkArgs) (rest : list SdkReply) (w : World) : World :=
  withSdkReplies rest
    (emit (SdkCall ns op args)
       (withUsageFile
          (appendFileSync (usageLine (ns ++ "." ++ op) w) (usageFile w)) w)).

(** The APPEND request of the segment of index [i]. *)
Definition appendRequest {N : JSNumber} (mediaId : string) (fileSize i : Z)
  : Event :=
  FetchAppend (appendUrl mediaId) i (i * CHUNK_SIZE)
    (Z.min CHUNK_SIZE (fileSize - i * CHUNK_SIZE)).

(** Two states that differ at most in the fetch answers left and in the
    trace. *)
Definition sameButFetches {N : JSNumber} (w w1 : World) : Prop :=
  budgetFile w1 = budgetFile w
  /\ usageFile w1 = usageFile w
  /\ config w1 = config w
  /\ sdkReplies w1 = sdkReplies w
  /\ nowISO w1 = nowISO w.

Section InterceptorMore.

Context {N : JSNumber} {rt : Runtime}.

Lemma wrapped_call (ns op : string) (args : SdkArgs) (w : World)
  (r : SdkReply) (rest : list SdkReply) :
  unlimited w = true ->
  sdkReplies w = r :: rest ->
  call (wrapClient sdkClient) ns op args w
    = (outcomeOf r, afterCall ns op args rest w).
Proof.
  intros Hu Hr.
  rewrite (call_wrapClient sdkClient ns op
             (fun o => Some (sdkOperation ns o)) (sdkOperation ns op))
    by reflexivity.
  unfold intercepted, bind. rewrite checkBudget_unlimited by assumption.
  rewrite logApiCall_spec. unfold sdkOperation, afterCall.
  cbn [sdkReplies emit withUsageFile]. rewrite Hr.
  destruct r; reflexivity.
Qed.

Lemma unlimited_afterCall (ns op : string) (args : SdkArgs)
  (rest : list SdkReply) (w : World) :
  unlimited (afterCall ns op args rest w) = unlimited w.
Proof. reflexivity. Qed.

(** While no limit is in force, interception changes nothing but the
    ledger: an operation of the wrapped SDK client has the outcome, makes
    the request and takes the answer of the bare operation, and leaves
    the state the bare operation leaves, with one ledger line more.  And
    wrapping adds no member: calling what the client does not have fails
    as it does on the bare client, with no budget check and no ledger
    line. *)
Theorem wrapClient_transparent (ns op : string) (args : SdkArgs) (w : World) :
  (unlimited w = true ->
   call (wrapClient sdkClient) ns op args w
     = (fst (call sdkClient ns op args w),
        withUsageFile
          (appendFileSync (usageLine (ns ++ "." ++ op) w) (usageFile w))
          (snd (call sdkClient ns op args w))))
  /\ (forall client : Client,
        (client ns = None
         \/ exists value, client ns = Some value /\ value op = None) ->
        call (wrapClient client) ns op args w = call client ns op args w
        /\ call client ns op args w = (Throw (NotAFunction ns op), w)).
Proof.
  split.
  - intros Hu.
    rewrite (call_wrapClient sdkClient ns op
               (fun o => Some (sdkOperation ns o)) (sdkOperation ns op))
      by reflexivity.
    unfold intercepted, bind. rewrite checkBudget_unlimited by assumption.
    rewrite logApiCall_spec. unfold call, sdkClient, sdkOperation.
    cbn [sdkReplies emit withUsageFile].
    destruct (sdkReplies w) as [|[resp|reason] rest]; reflexivity.
  - intros client [Hns | (value & Hns & Hop)]; unfold call, wrapClient;
      rewrite Hns; [|rewrite Hop]; split; reflexivity.
Qed.

End InterceptorMore.

Section AppendMore.

Context {N : JSNumber} {rt : Runtime}.

Lemma Zseq_snoc (start : Z) (count : nat) :
  Zseq start (S count) = (Zseq start count ++ [start + Z.of_nat count])%list.
Proof.
  revert start. induction count as [|n IH]; intros start.
  - cbn. now rewrite Z.add_0_r.
  - change (Zseq start (S (S n))) with (start :: Zseq (start + 1) (S n)).
    rewrite IH. cbn [Zseq app].
    replace (start + Z.of_nat (S n)) with (start + 1 + Z.of_nat n) by lia.
    reflexivity.
Qed.

Lemma networkEvents_emit_append (mediaId : string) (fileSize i : Z)
  (t : list Event) (bytesRead total : Z) :
  networkEvents ((t ++ [appendRequest mediaId fileSize i])
                   ++ [UploadProgress bytesRead total])%list
    = (networkEvents t ++ [appendRequest mediaId fileSize i])%list.
Proof.
  rewrite !networkEvents_app. cbn. now rewrite app_nil_r.
Qed.

(** A run of accepted segments, from the segment of index [i] on. *)
Lemma appendLoop_steps (mediaId : string) (fileSize : Z) :
  0 <= fileSize ->
  forall (k : nat) (i : Z) (w : World) (oks rest : list FetchResponse),
    0 <= i ->
    i + Z.of_nat k <= ceilDiv fileSize CHUNK_SIZE ->
    fetchReplies w = (oks ++ rest)%list ->
    List.length oks = k ->
    forallb resp_ok oks = true ->
    exists w1,
      appendLoop mediaId fileSize (Z.min (i * CHUNK_SIZE) fileSize) i w
        = appendLoop mediaId fileSize
            (Z.min ((i + Z.of_nat k) * CHUNK_SIZE) fileSize)
            (i + Z.of_nat k) w1
      /\ fetchReplies w1 = rest
      /\ networkEvents (trace w1)
         = (networkEvents (trace w)
              ++ map (appendRequest mediaId fileSize) (Zseq i k))%list
      /\ sentSegments (trace w1)
         = (sentSegments (trace w) ++ map (segment fileSize) (Zseq i k))%list
      /\ sameButFetches w w1.
Proof.
  intros Hsize.
  pose proof (ceilDiv_bounds fileSize CHUNK_SIZE Hsize ltac:(reflexivity)) as Hn.
  induction k as [|k IH]; intros i w oks rest Hi Hik Hreplies Hlen Hoks.
  - exists w. destruct oks; [|discriminate]. cbn [app] in Hreplies.
    rewrite Z.add_0_r. cbn [Zseq map]. rewrite !app_nil_r.
    unfold sameButFetches. auto 10.
  - destruct oks as [|resp oks]; [discriminate|].
    cbn [forallb] in Hoks. apply andb_true_iff in Hoks as [Hok Hoks].
    injection Hlen as Hlen.
    assert (Hlt : i * CHUNK_SIZE < fileSize) by nia.
    set (w1 := withFetchReplies (oks ++ rest)
                 (emit (FetchAppend (appendUrl mediaId) i (i * CHUNK_SIZE)
                          (chunkLenAt fileSize (i * CHUNK_SIZE))) w)).
    set (w2 := emit (UploadProgress
                       (i * CHUNK_SIZE + chunkLenAt fileSize (i * CHUNK_SIZE))
                       fileSize) w1).
    destruct (IH (i + 1) w2 oks rest) as (w' & Hrun & Hrest & Hnet & Hsent & Hsame);
      try assumption; try lia.
    { reflexivity. }
    exists w'.
    replace (i + Z.of_nat (S k)) with (i + 1 + Z.of_nat k) by lia.
    split; [|split; [|split; [|split]]]; try assumption.
    + rewrite appendLoop_equation.
      replace (Z.min (i * CHUNK_SIZE) fileSize) with (i * CHUNK_SIZE) by lia.
      apply Z.ltb_lt in Hlt. rewrite Hlt.
      unfold fetchAppend. cbn [fetchReplies emit]. rewrite Hreplies.
      cbn [app]. rewrite Hok. cbn [negb].
      fold w1. fold w2. rewrite <- Hrun. f_equal.
      apply Z.ltb_lt in Hlt. unfold chunkLenAt. lia.
    + rewrite Hnet. unfold w2, w1, emit; cbn [trace withFetchReplies].
      change (FetchAppend (appendUrl mediaId) i (i * CHUNK_SIZE)
                (chunkLenAt fileSize (i * CHUNK_SIZE)))
        with (appendRequest mediaId fileSize i).
      rewrite networkEvents_emit_append. cbn [Zseq map].
      now rewrite <- app_assoc.
    + rewrite Hsent. unfold w2, w1, emit; cbn [trace withFetchReplies].
      rewrite !sentSegments_app. cbn [sentSegments Zseq map].
      rewrite app_nil_r, <- app_assoc. cbn [app].
      unfold segment at 2, chunkLenAt. reflexivity.
Qed.

(** A refused segment ends the upload at once: when the server accepts
    the first [k] segments of a file that has more, and refuses the next,
    the loop throws AppendFailed with the index [k], the status and the
    body of that answer; the segments 0..k have been sent and no other,
    and no further answer is taken from the network. *)
Theorem appendLoop_aborts (mediaId : string) (fileSize : Z) (w : World)
  (oks rest : list FetchResponse) (bad : FetchResponse) :
  0 <= fileSize ->
  fetchReplies w = (oks ++ bad :: rest)%list ->
  Z.of_nat (List.length oks) < ceilDiv fileSize CHUNK_SIZE ->
  forallb resp_ok oks = true ->
  resp_ok bad = false ->
  let k := Z.of_nat (List.length oks) in
  let run := appendLoop mediaId fileSize 0 0 w in
  fst run = Throw (AppendFailed k (resp_status bad) (resp_body bad))
  /\ sentSegments (trace (snd run))
     = (sentSegments (trace w)
          ++ map (segment fileSize) (Zseq 0 (S (List.length oks))))%list
  /\ fetchReplies (snd run) = rest
  /\ usageFile (snd run) = usageFile w.
Proof.
  intros Hsize Hreplies Hk Hoks Hbad k run.
  pose proof (ceilDiv_bounds fileSize CHUNK_SIZE Hsize ltac:(reflexivity)) as Hn.
  destruct (appendLoop_steps mediaId fileSize Hsize (List.length oks) 0 w
              oks (bad :: rest))
    as (w1 & Hrun & Hrest & _ & Hsent & (_ & Hfile & _));
    try assumption; try reflexivity; try lia.
  assert (Hlt : k * CHUNK_SIZE < fileSize).
  { subst k. clear - Hk Hn. unfold CHUNK_SIZE in *. lia. }
  change (Z.min (0 * CHUNK_SIZE) fileSize) with (Z.min 0 fileSize) in Hrun.
  rewrite Z.min_l in Hrun by lia.
  rewrite Z.add_0_l in Hrun. fold k in Hrun.
  rewrite Z.min_l in Hrun by lia.
  unfold run. rewrite Hrun, appendLoop_equation.
  apply Z.ltb_lt in Hlt. rewrite Hlt.
  unfold fetchAppend. cbn [fetchReplies emit]. rewrite Hrest, Hbad.
  cbn [negb fst snd trace withFetchReplies fetchReplies usageFile emit].
  split; [reflexivity|]. split; [|split; [reflexivity|exact Hfile]].
  rewrite sentSegments_app, Hsent. cbn [sentSegments].
  rewrite <- app_assoc. f_equal.
  rewrite Zseq_snoc, map_app. cbn [map]. unfold segment at 3, chunkLenAt.
  rewrite Z.add_0_l. reflexivity.
Qed.

End AppendMore.

(** The access token [chunkedUpload] sends its segments with:
    [getAccount(accountName)?.auth?.accessToken]. *)
Definition uploadToken {N : JSNumber} (accountName : option string) (w : World)
  : option string :=
  match getAccount accountName w with
  | Some account => accessToken (auth account)
  | None => None
  end.

(** How the polling loop ends on a reply that is not non-terminal. *)
Definition pollOutcome {N : JSNumber} (r : SdkReply) : Outcome unit :=
  match r with
  | Rejected reason => Throw (NetworkError reason)
  | Replied resp =>
      match processingInfoOf resp with
      | None => Ok tt
      | Some info =>
          if stateIs info "succeeded" then Ok tt
          else Throw (ProcessingFailed
                        (nullish (info_errorMessage info) "unknown error"))
      end
  end.

(** The time the loop sleeps after a non-terminal reply, in ms. *)
Definition pollInterval (r : SdkReply) : Z :=
  match r with
  | Replied resp =>
      match processingInfoOf resp with
      | Some info => nullish (info_checkAfterSecs info) 5 * 1000
      | None => 0
      end
  | Rejected _ => 0
  end.

(** The sleeps so far, oldest first. *)
Fixpoint sleeps {N : JSNumber} (t : list Event) : list Z :=
  match t with
  | [] => []
  | Sleep ms :: rest => ms :: sleeps rest
  | _ :: rest => sleeps rest
  end.

Section PollingMore.

Context {N : JSNumber} {rt : Runtime}.

Lemma sleeps_app (t1 t2 : list Event) :
  sleeps (t1 ++ t2) = (sleeps t1 ++ sleeps t2)%list.
Proof.
  induction t1 as [|e t1 IH]; cbn; [reflexivity|].
  destruct e; cbn; now rewrite IH.
Qed.

Definition statusCall (mediaId : string) (rest : list SdkReply) (w : World)
  : World :=
  afterCall "media" "getUploadStatus" (StatusArgs mediaId) rest w.

(** One round of the loop on a reply that ends it. *)
Lemma pollLoop_ends (mediaId : string) (n : nat) (w : World) (r : SdkReply)
  (rest : list SdkReply) :
  unlimited w = true ->
  sdkReplies w = r :: rest ->
  nonTerminal r = false ->
  pollLoop (wrapClient sdkClient) mediaId (S n) w
    = (pollOutcome r, statusCall mediaId rest w).
Proof.
  intros Hu Hr Hnt. cbn [pollLoop]. unfold bind at 1.
  rewrite (wrapped_call _ _ _ _ _ _ Hu Hr). fold (statusCall mediaId rest w).
  destruct r as [resp|reason]; cbn [outcomeOf pollOutcome]; [|reflexivity].
  cbn [nonTerminal] in Hnt.
  destruct (processingInfoOf resp) as [info|]; [|reflexivity].
  destruct (stateIs info "succeeded"); [reflexivity|].
  cbn [negb andb] in Hnt. apply negb_false_iff in Hnt. now rewrite Hnt.
Qed.

(** One round of the loop on a reply that keeps it waiting. *)
Lemma pollLoop_waits (mediaId : string) (n : nat) (w : World) (r : SdkReply)
  (rest : list SdkReply) :
  unlimited w = true ->
  sdkReplies w = r :: rest ->
  nonTerminal r = true ->
  pollLoop (wrapClient sdkClient) mediaId (S n) w
    = pollLoop (wrapClient sdkClient) mediaId n
        (emit (Sleep (pollInterval r))
           (emit (ProcessingNotice (pollInterval r / 1000))
              (statusCall mediaId rest w))).
Proof.
  intros Hu Hr Hnt. cbn [pollLoop]. unfold bind at 1.
  rewrite (wrapped_call _ _ _ _ _ _ Hu Hr). fold (statusCall mediaId rest w).
  destruct r as [resp|reason]; [|discriminate].
  cbn [outcomeOf nonTerminal pollInterval] in *.
  destruct (processingInfoOf resp) as [info|]; [|discriminate].
  apply andb_true_iff in Hnt as [Hs Hf].
  apply negb_true_iff in Hs. apply negb_true_iff in Hf.
  rewrite Hs, Hf. rewrite Z.div_mul by discriminate. reflexivity.
Qed.

(** The loop over a run of non-terminal replies closed by one that is
    not, with attempts to spare. *)
Lemma pollLoop_run (mediaId : string) (final : SdkReply)
  (rest : list SdkReply) (slack : nat) :
  nonTerminal final = false ->
  forall (waiting : list SdkReply) (w : World),
    forallb nonTerminal waiting = true ->
    unlimited w = true ->
    sdkReplies w = (waiting ++ final :: rest)%list ->
    exists w',
      pollLoop (wrapClient sdkClient) mediaId
               (List.length waiting + S slack) w
        = (pollOutcome final, w')
      /\ sleeps (trace w')
         = (sleeps (trace w) ++ map pollInterval waiting)%list
      /\ statusQueries (trace w')
         = (statusQueries (trace w) + List.length waiting + 1)%nat
      /\ sdkReplies w' = rest
      /\ fetchReplies w' = fetchReplies w.
Proof.
  intros Hfinal.
  induction waiting as [|r waiting IH]; intros w Hall Hu Hr; cbn [app] in Hr.
  - cbn [List.length Nat.add]. rewrite (pollLoop_ends _ _ _ _ _ Hu Hr Hfinal).
    eexists; split; [reflexivity|].
    cbn [map]. unfold statusCall, afterCall.
    cbn [trace emit withSdkReplies withUsageFile sdkReplies fetchReplies].
    rewrite sleeps_app, app_nil_r. cbn [sleeps]. rewrite app_nil_r.
    repeat split.
    unfold statusQueries. rewrite filter_app, length_app. cbn. lia.
  - cbn [forallb] in Hall. apply andb_true_iff in Hall as [Hnt Hall].
    cbn [List.length Nat.add].
    rewrite (pollLoop_waits _ _ _ _ _ Hu Hr Hnt).
    set (w1 := emit _ _).
    destruct (IH w1 Hall) as (w' & Hrun & Hsleeps & Hqueries & Hreplies & Hfetch).
    { exact Hu. }
    { reflexivity. }
    exists w'. split; [exact Hrun|].
    split; [|split; [|split; [exact Hreplies|exact Hfetch]]].
    + rewrite Hsleeps. unfold w1, statusCall, afterCall.
      cbn [trace emit withSdkReplies withUsageFile].
      rewrite !sleeps_app. cbn [sleeps map]. rewrite !app_nil_r.
      now rewrite <- app_assoc.
    + rewrite Hqueries. unfold w1, statusCall, afterCall.
      cbn [trace emit withSdkReplies withUsageFile].
      unfold statusQueries. rewrite !filter_app, !length_app. cbn. lia.
Qed.

(** With no budget limit in force, the polling loop ends at the first
    reply that is not non-terminal, provided it comes within the 60
    attempts.  The outcome is decided by
    that reply alone: success when it carries no processing information
    or the state "succeeded", ProcessingFailed when the state is
    "failed", and the query's own error when the query failed.  Before
    it, the loop has slept once per non-terminal reply, for the seconds
    that reply suggested and for 5 seconds when it suggested none; one
    status query was made per reply, and the replies after the closing
    one are left untouched. *)
Theorem waitForProcessing_first_terminal (mediaId : string)
  (waiting : list SdkReply) (final : SdkReply) (rest : list SdkReply)
  (w : World) :
  forallb nonTerminal waiting = true ->
  nonTerminal final = false ->
  (List.length waiting < maxAttempts)%nat ->
  unlimited w = true ->
  sdkReplies w = (waiting ++ final :: rest)%list ->
  let run := waitForProcessing (wrapClient sdkClient) mediaId w in
  fst run = pollOutcome final
  /\ sleeps (trace (snd run))
     = (sleeps (trace w) ++ map pollInterval waiting)%list
  /\ statusQueries (trace (snd run))
     = (statusQueries (trace w) + List.length waiting + 1)%nat
  /\ sdkReplies (snd run) = rest.
Proof.
  intros Hall Hfinal Hlen Hu Hr run.
  destruct (pollLoop_run mediaId final rest
              (maxAttempts - S (List.length waiting)) Hfinal waiting w
              Hall Hu Hr) as (w' & Hrun & Hsleeps & Hqueries & Hreplies & _).
  replace (List.length waiting + S (maxAttempts - S (List.length waiting)))%nat
    with maxAttempts in Hrun by lia.
  unfold run, waitForProcessing. rewrite Hrun. cbn [fst snd]. auto.
Qed.

End PollingMore.

(** What a caller of an operation that polls gets from the loop's end. *)
Definition afterPolling {N : JSNumber} (mediaId : string) (o : Outcome unit)
  : Outcome string :=
  match o with
  | Ok _ => Ok mediaId
  | Throw e => Throw e
  | Unsettled => Unsettled
  end.

Section UploadMore.

Context {N : JSNumber} {rt : Runtime}.

Lemma unlimited_same (w w1 : World) :
  sameButFetches w w1 -> unlimited w1 = unlimited w.
Proof.
  intros (Hb & _). unfold unlimited, loadBudget. now rewrite Hb.
Qed.

(** Status queries are requests, so they can be counted among them. *)
Lemma statusQueries_network (t : list Event) :
  statusQueries t = List.length (filter isStatusQuery (networkEvents t)).
Proof.
  unfold statusQueries, networkEvents.
  induction t as [|e t IH]; [reflexivity|].
  cbn [filter].
  destruct (isNetworkEvent e) eqn:Hn, (isStatusQuery e) eqn:Hs;
    cbn [filter List.length]; rewrite ?Hs; cbn [List.length];
    try (now rewrite IH).
  destruct e; cbn in Hn, Hs; discriminate.
Qed.

Lemma statusQuery_appendRequests (mediaId : string) (fileSize : Z)
  (l : list Z) :
  filter isStatusQuery (map (appendRequest mediaId fileSize) l) = [].
Proof.
  induction l as [|i l IH]; [reflexivity|]. cbn [map filter]. exact IH.
Qed.

Lemma appendLoop_accepts_all (mediaId : string) (fileSize : Z) (w : World)
  (oks rest : list FetchResponse) :
  0 <= fileSize ->
  fetchReplies w = (oks ++ rest)%list ->
  Z.of_nat (List.length oks) = ceilDiv fileSize CHUNK_SIZE ->
  forallb resp_ok oks = true ->
  exists w1,
    appendLoop mediaId fileSize 0 0 w
      = (Ok (fileSize, ceilDiv fileSize CHUNK_SIZE), w1)
    /\ fetchReplies w1 = rest
    /\ networkEvents (trace w1)
       = (networkEvents (trace w)
            ++ map (appendRequest mediaId fileSize)
                   (Zseq 0 (List.length oks)))%list
    /\ sameButFetches w w1.
Proof.
  intros Hsize Hreplies Hlen Hoks.
  pose proof (ceilDiv_bounds fileSize CHUNK_SIZE Hsize ltac:(reflexivity)) as Hn.
  destruct (appendLoop_steps mediaId fileSize Hsize (List.length oks) 0 w
              oks rest)
    as (w1 & Hrun & Hrest & Hnet & _ & Hsame);
    try assumption; try reflexivity; try lia.
  exists w1.
  change (Z.min (0 * CHUNK_SIZE) fileSize) with (Z.min 0 fileSize) in Hrun.
  rewrite Z.min_l in Hrun by lia.
  rewrite Z.add_0_l, Hlen in Hrun.
  rewrite Z.min_r in Hrun by (clear - Hn; unfold CHUNK_SIZE in *; lia).
  rewrite Hrun, appendLoop_equation, Z.ltb_irrefl. auto.
Qed.

(** The state in which [chunkedUpload] makes its FINALIZE call. *)
Lemma chunkedUpload_to_finalize
  (filePath mediaType mediaCategory : string) (accountName : option string)
  (w : World) (fileSize : Z) (initResp : SdkResponse)
  (restS : list SdkReply) (oks restF : list FetchResponse)
  (mediaId token : string) :
  unlimited w = true ->
  lookup (fileSizes w) filePath = Some fileSize ->
  0 <= fileSize ->
  sdkReplies w = Replied initResp :: restS ->
  idOf initResp = Some mediaId -> mediaId <> "" ->
  uploadToken accountName w = Some token -> token <> "" ->
  fetchReplies w = (oks ++ restF)%list ->
  Z.of_nat (List.length oks) = ceilDiv fileSize CHUNK_SIZE ->
  forallb resp_ok oks = true ->
  exists w1,
    chunkedUpload (wrapClient sdkClient) filePath mediaType mediaCategory
                  accountName w
      = (finalResult <- call (wrapClient sdkClient) "media" "finalizeUpload"
                          (FinalizeArgs mediaId) ;;
         if String.eqb mediaCategory "tweet_video"
            || isSome (processingInfoOf finalResult)
         then waitForProcessing (wrapClient sdkClient) mediaId ;; ret mediaId
         else ret mediaId) w1
    /\ unlimited w1 = true
    /\ sdkReplies w1 = restS
    /\ fetchReplies w1 = restF
    /\ nowISO w1 = nowISO w
    /\ usageFile w1
       = appendFileSync (usageLine "media.initializeUpload" w) (usageFile w)
    /\ networkEvents (trace w1)
       = (networkEvents (trace w)
            ++ SdkCall "media" "initializeUpload"
                 (InitArgs mediaType mediaCategory fileSize)
            :: map (appendRequest mediaId fileSize)
                   (Zseq 0 (List.length oks)))%list.
Proof.
  intros Hu Hfile Hsize Hsdk Hid Hid' Htok Htok' Hfetch Hlen Hoks.
  set (w0 := afterCall "media" "initializeUpload"
               (InitArgs mediaType mediaCategory fileSize) restS w).
  destruct (appendLoop_accepts_all mediaId fileSize w0 oks restF)
    as (w1 & Hrun & Hrest & Hnet & Hsame); try assumption.
  exists w1.
  pose proof (unlimited_same _ _ Hsame) as Hu1.
  destruct Hsame as (_ & Hledger & _ & Hsdk1 & Hnow).
  split; [|split; [|split; [|split; [|split; [|split]]]]].
  - unfold chunkedUpload. unfold bind at 1. unfold statSync. rewrite Hfile.
    unfold bind at 1. rewrite (wrapped_call _ _ _ _ _ _ Hu Hsdk).
    fold w0. cbn [outcomeOf]. rewrite Hid. cbn [truthyStr nullish].
    destruct (String.eqb_spec mediaId ""); [contradiction|]. cbn [negb].
    change (match getAccount accountName w0 with
            | Some account => accessToken (auth account)
            | None => None
            end) with (uploadToken accountName w).
    rewrite Htok. cbn [truthyStr].
    destruct (String.eqb_spec token ""); [contradiction|]. cbn [negb].
    unfold bind at 1. rewrite Hrun. reflexivity.
  - now rewrite Hu1.
  - now rewrite Hsdk1.
  - exact Hrest.
  - now rewrite Hnow.
  - now rewrite Hledger.
  - rewrite Hnet. unfold w0, afterCall.
    cbn [trace emit withSdkReplies withUsageFile].
    rewrite networkEvents_app. cbn. now rewrite <- app_assoc.
Qed.

(** [chunkedUpload] asks for the access token only after INIT: when INIT
    answers without a media id, or the account has no access token (a
    bearer-only account, or no account at all), the upload fails with
    UploadInitFailed, respectively NoAccessTokenForUpload, and by then the
    INIT call has been made and entered in the ledger; no segment is
    sent.  (No budget limit is in force, so INIT is let through.) *)
Theorem chunkedUpload_stops_after_init
  (filePath mediaType mediaCategory : string) (accountName : option string)
  (w : World) (fileSize : Z) (initResp : SdkResponse)
  (restS : list SdkReply) :
  unlimited w = true ->
  lookup (fileSizes w) filePath = Some fileSize ->
  sdkReplies w = Replied initResp :: restS ->
  truthyStr (idOf initResp) = false
  \/ truthyStr (uploadToken accountName w) = false ->
  let run := chunkedUpload (wrapClient sdkClient) filePath mediaType
                           mediaCategory accountName w in
  fst run = Throw (if truthyStr (idOf initResp)
                   then NoAccessTokenForUpload else UploadInitFailed)
  /\ networkEvents (trace (snd run))
     = (networkEvents (trace w)
          ++ [SdkCall "media" "initializeUpload"
                (InitArgs mediaType mediaCategory fileSize)])%list
  /\ usageFile (snd run)
     = appendFileSync (usageLine "media.initializeUpload" w) (usageFile w)
  /\ fetchReplies (snd run) = fetchReplies w.
Proof.
  intros Hu Hfile Hsdk Hor run.
  assert (Hrun : run = (Throw (if truthyStr (idOf initResp)
                               then NoAccessTokenForUpload
                               else UploadInitFailed),
                        afterCall "media" "initializeUpload"
                          (InitArgs mediaType mediaCategory fileSize) restS w)).
  { unfold run, chunkedUpload. unfold bind at 1. unfold statSync.
    rewrite Hfile. unfold bind at 1.
    rewrite (wrapped_call _ _ _ _ _ _ Hu Hsdk). cbn [outcomeOf].
    destruct (truthyStr (idOf initResp)) eqn:Hid; cbn [negb]; [|reflexivity].
    destruct Hor as [Hor|Hor]; [discriminate|].
    change (match getAccount accountName
                    (afterCall "media" "initializeUpload"
                       (InitArgs mediaType mediaCategory fileSize) restS w) with
            | Some account => accessToken (auth account)
            | None => None
            end) with (uploadToken accountName w).
    now rewrite Hor. }
  rewrite Hrun. cbn [fst snd]. unfold afterCall.
  cbn [trace emit withSdkReplies withUsageFile usageFile fetchReplies].
  rewrite networkEvents_app. cbn. auto.
Qed.

(** A chunked upload that needs no processing (not a video, and
    FINALIZE answers without processing information), with no budget
    limit in force: for a file of [n] segments that the server accepts,
    with INIT and FINALIZE answered and an access token at hand, the
    upload returns the media id of INIT after exactly [n + 2]
    requests, in the order INIT, the segments 0 .. n-1, FINALIZE.  The
    ledger has grown by the two lines of INIT and FINALIZE. *)
Theorem chunkedUpload_completes
  (filePath mediaType mediaCategory : string) (accountName : option string)
  (w : World) (fileSize : Z) (initResp finalResp : SdkResponse)
  (restS : list SdkReply) (oks restF : list FetchResponse)
  (mediaId token : string) :
  unlimited w = true ->
  lookup (fileSizes w) filePath = Some fileSize ->
  0 <= fileSize ->
  sdkReplies w = Replied initResp :: Replied finalResp :: restS ->
  idOf initResp = Some mediaId -> mediaId <> "" ->
  uploadToken accountName w = Some token -> token <> "" ->
  fetchReplies w = (oks ++ restF)%list ->
  Z.of_nat (List.length oks) = ceilDiv fileSize CHUNK_SIZE ->
  forallb resp_ok oks = true ->
  String.eqb mediaCategory "tweet_video" = false ->
  processingInfoOf finalResp = None ->
  let run := chunkedUpload (wrapClient sdkClient) filePath mediaType
                           mediaCategory accountName w in
  fst run = Ok mediaId
  /\ networkEvents (trace (snd run))
     = (networkEvents (trace w)
          ++ SdkCall "media" "initializeUpload"
               (InitArgs mediaType mediaCategory fileSize)
          :: map (appendRequest mediaId fileSize) (Zseq 0 (List.length oks))
          ++ [SdkCall "media" "finalizeUpload" (FinalizeArgs mediaId)])%list
  /\ usageFile (snd run)
     = appendFileSync (usageLine "media.finalizeUpload" w)
         (appendFileSync (usageLine "media.initializeUpload" w) (usageFile w))
  /\ sdkReplies (snd run) = restS
  /\ fetchReplies (snd run) = restF.
Proof.
  intros Hu Hfile Hsize Hsdk Hid Hid' Htok Htok' Hfetch Hlen Hoks Hcat Hinfo run.
  destruct (chunkedUpload_to_finalize filePath mediaType mediaCategory
              accountName w fileSize initResp (Replied finalResp :: restS)
              oks restF mediaId token)
    as (w1 & Hrun & Hu1 & Hsdk1 & Hfetch1 & Hnow & Hledger & Hnet);
    try assumption.
  unfold run. rewrite Hrun. unfold bind.
  rewrite (wrapped_call _ _ _ _ _ _ Hu1 Hsdk1). cbn [outcomeOf].
  rewrite Hcat, Hinfo. cbn [isSome orb ret fst snd].
  unfold afterCall.
  cbn [trace emit withSdkReplies withUsageFile usageFile sdkReplies
       fetchReplies].
  rewrite networkEvents_app, Hnet, Hledger. unfold usageLine. rewrite Hnow.
  cbn. rewrite <- app_assoc. cbn [app]. auto.
Qed.

(** A chunked upload that needs processing, with no budget limit in
    force: for a video, or when FINALIZE answers with processing
    information, the upload goes on to poll the status after FINALIZE,
    and its result is that of the polling: the
    media id of INIT when the first status reply that is not non-terminal
    has no processing information or the state "succeeded", and the
    error of the polling otherwise. *)
Theorem chunkedUpload_waits
  (filePath mediaType mediaCategory : string) (accountName : option string)
  (w : World) (fileSize : Z) (initResp finalResp : SdkResponse)
  (waiting : list SdkReply) (final : SdkReply) (restS : list SdkReply)
  (oks restF : list FetchResponse) (mediaId token : string) :
  unlimited w = true ->
  lookup (fileSizes w) filePath = Some fileSize ->
  0 <= fileSize ->
  sdkReplies w
    = Replied initResp :: Replied finalResp
        :: (waiting ++ final :: restS)%list ->
  idOf initResp = Some mediaId -> mediaId <> "" ->
  uploadToken accountName w = Some token -> token <> "" ->
  fetchReplies w = (oks ++ restF)%list ->
  Z.of_nat (List.length oks) = ceilDiv fileSize CHUNK_SIZE ->
  forallb resp_ok oks = true ->
  mediaCategory = "tweet_video" \/ processingInfoOf finalResp <> None ->
  forallb nonTerminal waiting = true ->
  nonTerminal final = false ->
  (List.length waiting < maxAttempts)%nat ->
  let run := chunkedUpload (wrapClient sdkClient) filePath mediaType
                           mediaCategory accountName w in
  fst run = afterPolling mediaId (pollOutcome final)
  /\ statusQueries (trace (snd run))
     = (statusQueries (trace w) + List.length waiting + 1)%nat
  /\ sdkReplies (snd run) = restS
  /\ fetchReplies (snd run) = restF.
Proof.
  intros Hu Hfile Hsize Hsdk Hid Hid' Htok Htok' Hfetch Hlen Hoks Hcat
         Hall Hfinal Hmax run.
  destruct (chunkedUpload_to_finalize filePath mediaType mediaCategory
              accountName w fileSize initResp
              (Replied finalResp :: (waiting ++ final :: restS)%list)
              oks restF mediaId token)
    as (w1 & Hrun & Hu1 & Hsdk1 & Hfetch1 & Hnow & Hledger & Hnet);
    try assumption.
  unfold run. rewrite Hrun. unfold bind.
  rewrite (wrapped_call _ _ _ _ _ _ Hu1 Hsdk1). cbn [outcomeOf].
  assert (Hpoll : String.eqb mediaCategory "tweet_video"
                  || isSome (processingInfoOf finalResp) = true).
  { destruct Hcat as [->|Hinfo]; [reflexivity|].
    destruct (processingInfoOf finalResp); [|contradiction].
    apply orb_true_r. }
  rewrite Hpoll.
  set (w2 := afterCall "media" "finalizeUpload" (FinalizeArgs mediaId)
               (waiting ++ final :: restS)%list w1).
  destruct (pollLoop_run mediaId final restS
              (maxAttempts - S (List.length waiting)) Hfinal waiting w2
              Hall Hu1 eq_refl)
    as (w' & Hloop & _ & Hqueries & Hreplies & Hfetch').
  replace (List.length waiting + S (maxAttempts - S (List.length waiting)))%nat
    with maxAttempts in Hloop by lia.
  assert (Hq1 : statusQueries (trace w1) = statusQueries (trace w)).
  { rewrite (statusQueries_network (trace w1)),
            (statusQueries_network (trace w)), Hnet, filter_app.
    cbn [filter isStatusQuery]. cbn [String.eqb Ascii.eqb Bool.eqb andb].
    now rewrite statusQuery_appendRequests, app_nil_r. }
  assert (Hq2 : statusQueries (trace w2) = statusQueries (trace w)).
  { rewrite <- Hq1. unfold w2, afterCall.
    cbn [trace emit withSdkReplies withUsageFile].
    unfold statusQueries. rewrite filter_app, length_app. cbn. lia. }
  assert (Hf2 : fetchReplies w2 = restF) by exact Hfetch1.
  unfold waitForProcessing. rewrite Hloop.
  rewrite Hq2 in Hqueries. rewrite Hf2 in Hfetch'.
  destruct (pollOutcome final) as [[]| |]; cbn [afterPolling ret fst snd];
    auto.
Qed.

End UploadMore.

(** How [oneShotUpload] ends on the answer to its upload call. *)
Definition oneShotOutcome {N : JSNumber} (r : SdkReply) : Outcome string :=
  match r with
  | Replied resp =>
      if truthyStr (idOf resp) then Ok (nullish (idOf resp) "")
      else Throw OneShotFailed
  | Rejected reason => Throw (NetworkError reason)
  end.

Section ImageUpload.

Context {N : JSNumber} {rt : Runtime}.

(** An image goes up in one shot: for a supported extension of category
    tweet_image (one that [CATEGORY_MAP] maps there, or does not map at
    all), a file within the 5 MiB limit, an account served as it is and
    no budget limit in force, [uploadMedia] makes exactly one request, the SDK's [media.upload]
    with the path, the MIME type and the category, and enters it in the
    ledger.  It returns the id of the answer, fails with OneShotFailed
    when the answer has no id or an empty one, and with the call's own
    error when the call fails; no segment is ever sent. *)
Theorem uploadMedia_image_one_shot (filePath : string)
  (accountName : option string) (w : World) (mediaType : string)
  (fileSize : Z) (account : Account) (r : SdkReply) (rest : list SdkReply) :
  let ext := toLowerCase (path_extname filePath) in
  lookup MIME_MAP ext = Some mediaType ->
  nullish (lookup CATEGORY_MAP ext) "tweet_image" = "tweet_image" ->
  lookup (fileSizes w) filePath = Some fileSize ->
  fileSize <= 5 * MiB ->
  getAccount accountName w = Some account ->
  ready account (nowMs w) ->
  unlimited w = true ->
  sdkReplies w = r :: rest ->
  let run := uploadMedia filePath accountName w in
  fst run = oneShotOutcome r
  /\ networkEvents (trace (snd run))
     = (networkEvents (trace w)
          ++ [SdkCall "media" "upload"
                (UploadArgs filePath mediaType "tweet_image")])%list
  /\ usageFile (snd run)
     = appendFileSync (usageLine "media.upload" w) (usageFile w)
  /\ fetchReplies (snd run) = fetchReplies w.
Proof.
  intros ext Hmime Hcat Hfile Hsize Hacc Hready Hu Hsdk run.
  assert (Hrun : run = (oneShotOutcome r,
                        afterCall "media" "upload"
                          (UploadArgs filePath mediaType "tweet_image")
                          rest w)).
  { unfold run, uploadMedia. fold ext. rewrite Hmime. cbn zeta. rewrite Hcat.
    unfold bind at 1. unfold statSync. rewrite Hfile.
    replace (nullish (lookup SIZE_LIMITS "tweet_image") (5 * 1024 * 1024))
      with (5 * MiB) by reflexivity.
    destruct (Z.ltb_spec (5 * MiB) fileSize) as [Hlt|_]; [lia|].
    unfold bind at 1. rewrite (getClient_ready _ _ _ Hacc Hready).
    replace (String.eqb "tweet_image" "tweet_image") with true by reflexivity.
    unfold oneShotUpload, bind.
    rewrite (wrapped_call _ _ _ _ _ _ Hu Hsdk).
    destruct r as [resp|reason]; cbn [outcomeOf oneShotOutcome];
      [|reflexivity].
    destruct (truthyStr (idOf resp)); reflexivity. }
  rewrite Hrun. cbn [fst snd]. unfold afterCall.
  cbn [trace emit withSdkReplies withUsageFile usageFile fetchReplies].
  rewrite networkEvents_app. cbn. auto.
Qed.

End ImageUpload.

(* --------------------------------------------------------------------- *)
(** ** src/lib/format.ts *)
(* --------------------------------------------------------------------- *)

(** [Schemas.User], the fields the formatter reads. *)
Record User := {
  user_id : option string;
  user_username : string;
  user_name : string
}.

(** [parts.join(sep)] *)
Fixpoint join (sep : string) (parts : list string) : string :=
  match parts with
  | [] => EmptyString
  | [p] => p
  | p :: rest => p ++ sep ++ join sep rest
  end.

(** [text.replace(/\n/g, "\n  ")] *)
Fixpoint indentContinuation (text : string) : string :=
  match text with
  | EmptyString => EmptyString
  | String c r =>
      if Ascii.eqb c LF then String LF ("  " ++ indentContinuation r)
      else String c (indentContinuation r)
  end.

(** The [for (const user of users)] loop of [buildUserMap]. *)
Fixpoint buildUserLoop (users : list User) (map : list (string * User))
  : list (string * User) :=
  match users with
  | [] => map
  | user :: rest =>
      buildUserLoop rest
        (if truthyStr (user_id user)
         then mapSet map (nullish (user_id user) "") user
         else map)
  end.

Definition buildUserMap (users : option (list User)) : list (string * User) :=
  match users with
  | Some us => buildUserLoop us []
  | None => []
  end.

(** The user with the id [key], if [user] is. *)
Definition hasId (key : string) (user : User) : bool :=
  match user_id user with
  | Some id => String.eqb id key
  | None => false
  end.

Section Format.

Context {N : JSNumber}.

(** [String(n)] on a number and [new Date(s).toLocaleString()], which
    depends on the locale of the machine. *)
Variable showNumber : num -> string.
Variable toLocaleString : string -> string.

(** [tweet.publicMetrics as Record<string, number>] *)
Record Metrics := {
  likeCount : option num;
  retweetCount : option num;
  replyCount : option num;
  quoteCount : option num
}.

(** [Schemas.Tweet], the fields the formatter reads. *)
Record Tweet := {
  tweet_id : option string;
  tweet_text : option string;
  tweet_authorId : option string;
  tweet_publicMetrics : option Metrics;
  tweet_createdAt : option string
}.

(** [if (count) parts.push(`${count} label`)] *)
Definition pushCount (count : option num) (label : string)
  (parts : list string) : list string :=
  match count with
  | Some n =>
      if truthy n then (parts ++ [(showNumber n ++ " " ++ label)%string])%list
      else parts
  | None => parts
  end.

Definition metricParts (m : Metrics) : list string :=
  let parts := [] in
  let parts := pushCount (likeCount m) "likes" parts in
  let parts := pushCount (retweetCount m) "RTs" parts in
  let parts := pushCount (replyCount m) "replies" parts in
  let parts := pushCount (quoteCount m) "quotes" parts in
  parts.

Definition metaParts (tweet : Tweet) : list string :=
  let meta := [] in
  let meta :=
    match tweet_createdAt tweet with
    | Some created =>
        if truthyStr (Some created)
        then (meta ++ [toLocaleString created])%list else meta
    | None => meta
    end in
  let meta :=
    match tweet_id tweet with
    | Some id =>
        if truthyStr (Some id) then (meta ++ [("id:" ++ id)%string])%list else meta
    | None => meta
    end in
  meta.

(** [tweet.authorId ? usersById?.get(tweet.authorId) : undefined] *)
Definition authorOf (tweet : Tweet)
  (usersById : option (list (string * User))) : option User :=
  if truthyStr (tweet_authorId tweet) then
    match usersById with
    | Some map => lookup map (nullish (tweet_authorId tweet) "")
    | None => None
    end
  else None.

(** The [lines] array of [formatTweet] as it is joined. *)
Definition formatTweetLines (tweet : Tweet)
  (usersById : option (list (string * User))) : list string :=
  let lines := [] in
  let lines :=
    match authorOf tweet usersById with
    | Some author =>
        (lines ++ [("@" ++ user_username author
                    ++ " (" ++ user_name author ++ ")")%string])%list
    | None => lines
    end in
  let text := nullish (tweet_text tweet) "" in
  let lines := (lines ++ [("  " ++ indentContinuation text)%string])%list in
  let lines :=
    match tweet_publicMetrics tweet with
    | Some m =>
        let parts := metricParts m in
        if (0 <? List.length parts)%nat
        then (lines ++ [("  " ++ join " · " parts)%string])%list
        else lines
    | None => lines
    end in
  let meta := metaParts tweet in
  let lines :=
    if (0 <? List.length meta)%nat
    then (lines ++ [("  " ++ join " · " meta)%string])%list
    else lines in
  lines.

Definition formatTweet (tweet : Tweet)
  (usersById : option (list (string * User))) : string :=
  joinLines (formatTweetLines tweet usersById).

(** The author line of a tweet, when it has one. *)
Definition authorLines (tweet : Tweet)
  (usersById : option (list (string * User))) : list string :=
  match authorOf tweet usersById with
  | Some author =>
      ["@" ++ user_username author ++ " (" ++ user_name author ++ ")"]
  | None => []
  end.

(** The lines below the text, before they are indented. *)
Definition trailerLines (tweet : Tweet) : list string :=
  (match tweet_publicMetrics tweet with
   | Some m =>
       if (0 <? List.length (metricParts m))%nat
       then [join " · " (metricParts m)] else []
   | None => []
   end
   ++ if (0 <? List.length (metaParts tweet))%nat
      then [join " · " (metaParts tweet)] else [])%list.

Lemma hasLF_app (a b : string) :
  hasLF (a ++ b) = hasLF a || hasLF b.
Proof.
  induction a as [|c a IH]; cbn [append hasLF]; [reflexivity|].
  now rewrite IH, orb_assoc.
Qed.

Lemma splitLines_nonempty (s : string) : splitLines s <> [].
Proof.
  destruct s as [|c r]; cbn [splitLines]; [discriminate|].
  destruct (Ascii.eqb c LF); [discriminate|].
  destruct (splitLines r); discriminate.
Qed.

Lemma splitLines_app_LF (a b : string) :
  splitLines (a ++ String LF b) = (splitLines a ++ splitLines b)%list.
Proof.
  induction a as [|c a IH]; cbn [append splitLines].
  - now rewrite Ascii.eqb_refl.
  - destruct (Ascii.eqb c LF); [now rewrite IH|].
    rewrite IH. pose proof (splitLines_nonempty a) as Hne.
    destruct (splitLines a); [contradiction|reflexivity].
Qed.

Lemma splitLines_joinLines_concat (lines : list string) :
  lines <> [] ->
  splitLines (joinLines lines) = List.concat (map splitLines lines).
Proof.
  induction lines as [|l rest IH]; [congruence|]. intros _.
  destruct rest as [|l2 rest].
  - cbn. now rewrite app_nil_r.
  - change (joinLines (l :: l2 :: rest))
      with (l ++ String LF (joinLines (l2 :: rest))).
    rewrite splitLines_app_LF, IH by discriminate.
    reflexivity.
Qed.

(** The text block of a tweet: its lines, each behind two spaces. *)
Lemma splitLines_indentContinuation (text : string) :
  splitLines ("  " ++ indentContinuation text)
    = map (append "  ") (splitLines text).
Proof.
  assert (H : forall p, hasLF p = false ->
            splitLines (p ++ indentContinuation text)
              = match splitLines text with
                | [] => []
                | l :: ls => (p ++ l) :: map (append "  ") ls
                end).
  { induction text as [|c r IH]; intros p Hp.
    - cbn [indentContinuation splitLines].
      rewrite splitLines_line; [reflexivity|].
      now rewrite hasLF_app, Hp.
    - cbn [indentContinuation splitLines].
      destruct (Ascii.eqb c LF) eqn:Hc.
      + rewrite splitLines_cons by assumption.
        rewrite (IH "  " eq_refl).
        pose proof (splitLines_nonempty r) as Hne.
        destruct (splitLines r); [contradiction|].
        cbn [map]. f_equal.
        clear. induction p as [|a p IHp]; cbn; [reflexivity|now rewrite <- IHp].
      + replace (p ++ String c (indentContinuation r))
          with ((p ++ String c EmptyString) ++ indentContinuation r).
        2:{ clear. induction p as [|a p IHp]; cbn; [reflexivity|now rewrite IHp]. }
        rewrite IH.
        2:{ rewrite hasLF_app, Hp. cbn [hasLF]. now rewrite Hc. }
        pose proof (splitLines_nonempty r) as Hne.
        destruct (splitLines r); [contradiction|].
        f_equal. clear.
        induction p as [|a p IHp]; cbn; [reflexivity|now rewrite IHp]. }
  rewrite (H "  " eq_refl).
  pose proof (splitLines_nonempty text) as Hne.
  destruct (splitLines text); [contradiction|reflexivity].
Qed.

Lemma hasLF_join (parts : list string) :
  Forall (fun p => hasLF p = false) parts ->
  hasLF (join " · " parts) = false.
Proof.
  induction 1 as [|p rest Hp Hrest IH]; [reflexivity|].
  destruct rest as [|p2 rest]; [exact Hp|].
  change (join " · " (p :: p2 :: rest))
    with (p ++ " · " ++ join " · " (p2 :: rest)).
  rewrite !hasLF_app, Hp, IH. reflexivity.
Qed.

Lemma find_snoc {A : Type} (f : A -> bool) (l : list A) (x : A) :
  find f (l ++ [x])
    = match find f l with
      | Some y => Some y
      | None => if f x then Some x else None
      end.
Proof.
  induction l as [|a l IH]; cbn [app find]; [reflexivity|].
  destruct (f a); [reflexivity|exact IH].
Qed.

Lemma buildUserLoop_lookup (key : string) :
  key <> "" ->
  forall (users : list User) (map : list (string * User)),
    lookup (buildUserLoop users map) key
      = match find (hasId key) (rev users) with
        | Some user => Some user
        | None => lookup map key
        end.
Proof.
  intros Hkey. induction users as [|user rest IH]; intros map.
  - reflexivity.
  - cbn [buildUserLoop rev]. rewrite IH, find_snoc.
    destruct (find (hasId key) (rev rest)); [reflexivity|].
    unfold hasId. destruct (user_id user) as [id|]; cbn [truthyStr nullish];
      [|reflexivity].
    destruct (String.eqb_spec id "") as [->|Hid]; cbn [negb].
    + destruct (String.eqb_spec "" key); [congruence|reflexivity].
    + rewrite lookup_mapSet. destruct (String.eqb id key); reflexivity.
Qed.

Lemma buildUserLoop_no_empty_key (users : list User) :
  forall map : list (string * User),
    lookup (buildUserLoop users map) "" = lookup map "".
Proof.
  induction users as [|user rest IH]; intros map; [reflexivity|].
  cbn [buildUserLoop]. rewrite IH.
  destruct (user_id user) as [id|]; cbn [truthyStr nullish]; [|reflexivity].
  destruct (String.eqb_spec id "") as [->|Hid]; cbn [negb]; [reflexivity|].
  rewrite lookup_mapSet.
  destruct (String.eqb_spec id ""); [contradiction|reflexivity].
Qed.

(** [buildUserMap] keeps, for every id, the last user of the array that
    has it: a later user replaces an earlier one with the same id.
    Users without an id, or with an empty one, are left out, so the
    empty key is never bound; and no array at all gives the empty map. *)
Theorem buildUserMap_lookup (users : list User) (key : string) :
  lookup (buildUserMap (Some users)) key
    = (if String.eqb key "" then None else find (hasId key) (rev users))
  /\ lookup (buildUserMap None) key = None.
Proof.
  split; [|reflexivity]. unfold buildUserMap.
  destruct (String.eqb_spec key "") as [->|Hkey].
  - now rewrite buildUserLoop_no_empty_key.
  - rewrite (buildUserLoop_lookup key Hkey).
    destruct (find (hasId key) (rev users)); reflexivity.
Qed.

Definition noLF (s : string) : Prop := hasLF s = false.

Lemma concat_splitLines_noLF (lines : list string) :
  Forall noLF lines -> List.concat (map splitLines lines) = lines.
Proof.
  induction 1 as [|l rest Hl Hrest IH]; [reflexivity|].
  cbn [map List.concat]. rewrite IH, (splitLines_line l Hl). reflexivity.
Qed.

Lemma pushCount_noLF (count : option num) (label : string)
  (parts : list string) :
  (forall n, noLF (showNumber n)) ->
  noLF label ->
  Forall noLF parts -> Forall noLF (pushCount count label parts).
Proof.
  intros Hshow Hlabel Hparts. unfold pushCount.
  destruct count as [n|]; [|assumption].
  destruct (truthy n); [|assumption].
  apply Forall_app. split; [assumption|].
  constructor; [|constructor].
  unfold noLF. rewrite hasLF_app, Hshow. cbn [append hasLF].
  now rewrite Hlabel.
Qed.

Lemma formatTweetLines_shape (tweet : Tweet)
  (usersById : option (list (string * User))) :
  formatTweetLines tweet usersById
    = (authorLines tweet usersById
         ++ ("  " ++ indentContinuation (nullish (tweet_text tweet) ""))%string
         :: map (append "  ") (trailerLines tweet))%list.
Proof.
  unfold formatTweetLines, authorLines, trailerLines. cbn zeta.
  destruct (authorOf tweet usersById) as [author|];
    destruct (tweet_publicMetrics tweet) as [m|];
    try destruct (0 <? List.length (metricParts m))%nat;
    destruct (0 <? List.length (metaParts tweet))%nat; reflexivity.
Qed.

(** What [formatTweet] prints, line by line: the author line when the
    author of the tweet is in the user map, then the lines of the text,
    then the line of the counts that are not zero and the line of date
    and id, each when it has something to show.  Every line but the
    author line starts with two spaces, the continuation lines of a text
    of several lines too.  This holds when no name, number, date or id
    has a line feed in it. *)
Theorem formatTweet_lines (tweet : Tweet)
  (usersById : option (list (string * User))) :
  (forall n, noLF (showNumber n)) ->
  (forall s, noLF (toLocaleString s)) ->
  (forall author, authorOf tweet usersById = Some author ->
                  noLF (user_username author) /\ noLF (user_name author)) ->
  (forall id, tweet_id tweet = Some id -> noLF id) ->
  splitLines (formatTweet tweet usersById)
    = (authorLines tweet usersById
         ++ map (append "  ")
                (splitLines (nullish (tweet_text tweet) "")
                   ++ trailerLines tweet))%list.
Proof.
  intros Hshow Hdate Hauthor Hid.
  assert (Hparts : forall m, Forall noLF (metricParts m)).
  { intros m. unfold metricParts.
    repeat (apply pushCount_noLF; [assumption|reflexivity|]). constructor. }
  assert (Hmeta : Forall noLF (metaParts tweet)).
  { unfold metaParts. cbn zeta.
    assert (H1 : Forall noLF
                   match tweet_createdAt tweet with
                   | Some created =>
                       if truthyStr (Some created)
                       then ([] ++ [toLocaleString created])%list else []
                   | None => []
                   end).
    { destruct (tweet_createdAt tweet) as [created|]; [|constructor].
      destruct (truthyStr (Some created)); repeat constructor.
      apply Hdate. }
    destruct (tweet_id tweet) as [id|] eqn:Eid; [|exact H1].
    destruct (truthyStr (Some id)); [|exact H1].
    apply Forall_app. split; [exact H1|].
    constructor; [|constructor].
    unfold noLF. cbn [append hasLF]. cbn.
    exact (Hid id eq_refl). }
  assert (Htrailer : Forall noLF (map (append "  ") (trailerLines tweet))).
  { unfold trailerLines. rewrite map_app. apply Forall_app. split.
    - destruct (tweet_publicMetrics tweet) as [m|]; [|constructor].
      destruct (0 <? List.length (metricParts m))%nat; [|constructor].
      constructor; [|constructor]. unfold noLF. cbn [append hasLF].
      cbn. apply hasLF_join, Hparts.
    - destruct (0 <? List.length (metaParts tweet))%nat; [|constructor].
      constructor; [|constructor]. unfold noLF. cbn [append hasLF].
      cbn. apply hasLF_join, Hmeta. }
  assert (Hlines : Forall noLF (authorLines tweet usersById)).
  { unfold authorLines.
    destruct (authorOf tweet usersById) as [author|] eqn:Ea; [|constructor].
    destruct (Hauthor author eq_refl) as [Hu Hn].
    constructor; [|constructor].
    unfold noLF. cbn [append hasLF]. cbn.
    rewrite hasLF_app, Hu. cbn. rewrite hasLF_app, Hn. reflexivity. }
  unfold formatTweet. rewrite formatTweetLines_shape.
  rewrite splitLines_joinLines_concat
    by (destruct (authorLines tweet usersById); discriminate).
  rewrite map_app, List.concat_app. cbn [map List.concat].
  rewrite (concat_splitLines_noLF _ Hlines).
  rewrite (concat_splitLines_noLF _ Htrailer).
  rewrite splitLines_indentContinuation, map_app. reflexivity.
Qed.

End Format.

(* --------------------------------------------------------------------- *)
(** ** src/commands/auth.ts, [xc auth status] *)
(* --------------------------------------------------------------------- *)

(** [`${n}`] on an integer. *)
Definition showZ (z : Z) : string := NilZero.string_of_int (Z.to_int z).

(** [auth.expiresAt] as a condition: absent and 0 are falsy. *)
Definition truthyZ (z : option Z) : bool :=
  match z with
  | Some v => negb (v =? 0)
  | None => false
  end.

(** The status shown for one account, at the time [now]. *)
Definition accountStatus (a : AuthCredential) (now : Z) : string :=
  if String.eqb (authType a) "oauth2" && truthyZ (expiresAt a) then
    let remaining := nullish (expiresAt a) 0 - now in
    if remaining <=? 0 then
      if truthyStr (refreshToken a) then "⟳ expired (has refresh)"
      else "✗ expired"
    else
      let hours := remaining / 3600000 in
      let mins := Z.rem remaining 3600000 / 60000 in
      "✓ " ++ showZ hours ++ "h" ++ showZ mins ++ "m remaining"
  else "✓".

Section AuthStatus.

Context {N : JSNumber}.

(** What [xc auth status] shows for an OAuth2 token with an expiry, and
    what [getClient] does with the same token.  A token at or past its
    expiry is shown as expired, with or without a refresh token, and
    [getClient] takes it as due for refresh.  A token with time left is
    shown with whole hours and 0 to 59 whole minutes, rounded down to
    the minute; [getClient] refreshes it all the same as soon as no more
    than 60 seconds are left. *)
Theorem accountStatus_remaining (a : AuthCredential) (now e : Z) :
  authType a = "oauth2" ->
  expiresAt a = Some e ->
  e <> 0 ->
  let remaining := e - now in
  (remaining <= 0 ->
     accountStatus a now
       = (if truthyStr (refreshToken a) then "⟳ expired (has refresh)"
          else "✗ expired")
     /\ dueForRefresh a now = true)
  /\ (0 < remaining ->
      exists hours mins,
        accountStatus a now
          = "✓ " ++ showZ hours ++ "h" ++ showZ mins ++ "m remaining"
        /\ 0 <= hours /\ 0 <= mins < 60
        /\ hours * 3600000 + mins * 60000 <= remaining
             < hours * 3600000 + mins * 60000 + 60000
        /\ (dueForRefresh a now = true <-> remaining <= 60000)).
Proof.
  intros Htype He Hnz remaining.
  assert (Hhead : String.eqb (authType a) "oauth2" && truthyZ (expiresAt a)
                  = true).
  { rewrite Htype, He. cbn [truthyZ].
    destruct (Z.eqb_spec e 0); [contradiction|reflexivity]. }
  unfold accountStatus, dueForRefresh. rewrite Hhead, He. cbn [nullish].
  fold remaining. split.
  - intros Hle. destruct (Z.leb_spec remaining 0) as [_|Hgt]; [|lia].
    split; [reflexivity|]. apply Z.leb_le. unfold remaining in Hle. lia.
  - intros Hpos. destruct (Z.leb_spec remaining 0) as [Hle|_]; [lia|].
    exists (remaining / 3600000), (Z.rem remaining 3600000 / 60000).
    rewrite Z.rem_mod_nonneg by lia.
    pose proof (Z.div_mod remaining 3600000 ltac:(lia)) as Hdm.
    pose proof (Z.mod_pos_bound remaining 3600000 ltac:(lia)) as Hmod.
    pose proof (Z.div_mod (remaining mod 3600000) 60000 ltac:(lia)) as Hdm2.
    pose proof (Z.mod_pos_bound (remaining mod 3600000) 60000 ltac:(lia))
      as Hmod2.
    pose proof (Z.div_pos remaining 3600000 ltac:(lia) ltac:(lia)) as Hh.
    pose proof (Z.div_pos (remaining mod 3600000) 60000 ltac:(lia)
                  ltac:(lia)) as Hm.
    assert (Hm60 : remaining mod 3600000 / 60000 < 60).
    { apply Z.div_lt_upper_bound; lia. }
    split; [reflexivity|]. split; [exact Hh|]. split; [lia|].
    split; [lia|].
    rewrite Z.leb_le. unfold remaining. lia.
Qed.

End AuthStatus.

(* ===================================================================== *)
(** * Worked examples on IEEE doubles *)
(* ===================================================================== *)

(** The literals of the cost table, as the doubles JavaScript reads. *)
Lemma float_literals :
  lit (JSNumber := float64) 0.01%Q = 0.01%float
  /\ lit (JSNumber := float64) 0.02%Q = 0.02%float
  /\ lit (JSNumber := float64) 0.005%Q = 0.005%float
  /\ zero (N := float64) = 0%float.
Proof. repeat split; reflexivity. Qed.

Lemma float_ZeroLaws : ZeroLaws float64.
Proof. split; reflexivity. Qed.

Section FloatExample.

#[local] Existing Instance float64.
Context {rt : Runtime}.

(** C4.  With the limit 2.00 and action block, when today's spend as the
    program computes it is 1.99, a call estimated at 0.02 is refused with
    BudgetExceeded and a call estimated at 0.01 is let through:
    in doubles 1.99 + 0.02 > 2 and 1.99 + 0.01 = 2. *)
Theorem checkBudget_boundary (endpoint : string) (w : World) :
  loadBudget w = {| daily := Some 2.00%float; action := block |} ->
  computeTodaySpend w (loadUsageLog w) = 1.99%float ->
  (estimateCost endpoint = 0.02%float ->
   checkBudget endpoint w
     = (Throw (BudgetExceeded 2.00%float 1.99%float 0.02%float), w))
  /\ (estimateCost endpoint = 0.01%float ->
      checkBudget endpoint w = (Ok tt, w)).
Proof.
  intros Hb Hs. unfold checkBudget. rewrite Hb, Hs. cbn [daily action].
  split; intros ->; reflexivity.
Qed.

End FloatExample.

(** *** Instances of the theorems above *)

#[local] Existing Instance float64.
#[local] Existing Instance demoRuntime.

Lemma checkBudget_decision_witness :
  let w0 := demoWorld (N := float64) in
  let w1 := withUsageFile (Some spent199) (withBudgetFile (blockAt (N := float64) 2.00%float) w0) in
  checkBudget "posts.create" w0 = (Ok tt, w0)
  /\ checkBudget "posts.create" w1 = (Ok tt, w1)
  /\ checkBudget "posts.searchAll" w1
     = (Throw (BudgetExceeded (N := float64) 2.00%float 1.99%float 0.02%float), w1)
  /\ intercepted "posts" "searchAll" (sdkOperation "posts" "searchAll")
       (OtherArgs ["rocq"]) w1
     = (Throw (BudgetExceeded (N := float64) 2.00%float 1.99%float 0.02%float), w1).
Proof.
  intros w0 w1.
  pose proof (checkBudget_decision (rt := demoRuntime (N := float64)) "posts.create" w0)
    as (H0 & _ & _).
  pose proof (checkBudget_decision (rt := demoRuntime (N := float64)) "posts.create" w1)
    as (_ & H1 & _).
  pose proof (checkBudget_decision (rt := demoRuntime (N := float64)) "posts.searchAll" w1)
    as (_ & _ & H2).
  split; [exact (H0 eq_refl)|].
  split; [exact (H1 2.00%float eq_refl eq_refl)|].
  destruct (H2 2.00%float eq_refl eq_refl eq_refl eq_refl) as [Hc Hi].
  split; [exact Hc|].
  exact (Hi "posts" "searchAll" _ _ eq_refl).
Defined.

Lemma checkBudget_boundary_witness :
  let w1 := withUsageFile (Some spent199)
              (withBudgetFile (blockAt (N := float64) 2.00%float) demoWorld) in
  checkBudget "posts.searchAll" w1
    = (Throw (BudgetExceeded (N := float64) 2.00%float 1.99%float 0.02%float), w1)
  /\ checkBudget "posts.create" w1 = (Ok tt, w1).
Proof.
  intros w1.
  split.
  - exact (proj1 (checkBudget_boundary (rt := demoRuntime (N := float64)) "posts.searchAll" w1
                    eq_refl eq_refl) eq_refl).
  - exact (proj2 (checkBudget_boundary (rt := demoRuntime (N := float64)) "posts.create" w1
                    eq_refl eq_refl) eq_refl).
Defined.

Lemma checkBudget_zero_limit_witness :
  let w1 := withUsageFile (Some spent199)
              (withBudgetFile (blockAt (N := float64) 0%float) demoWorld) in
  checkBudget "posts.searchAll" w1 = (Ok tt, w1)
  /\ budgetSet (N := float64) 0%float "block" w1 = (Throw (N := float64) InvalidDaily, w1).
Proof.
  intros w1.
  destruct (checkBudget_zero_limit (rt := demoRuntime (N := float64))
              (zeroLaws := float_ZeroLaws) "posts.searchAll" w1 eq_refl)
    as [Hc Hs].
  split; [exact Hc | exact (Hs "block" w1)].
Defined.



Lemma appendLoop_chunks_witness :
  let w := withFetchReplies
             [okResponse; okResponse; okResponse; okResponse; okResponse]
             demoWorld in
  let run := appendLoop "m1" (20 * MiB) 0 0 w in
  ceilDiv (20 * MiB) CHUNK_SIZE = 4
  /\ fst run = Ok (20 * MiB, 4)
  /\ sentSegments (trace (snd run))
     = [ (0, 0, 5 * MiB); (1, 5 * MiB, 5 * MiB);
         (2, 10 * MiB, 5 * MiB); (3, 15 * MiB, 5 * MiB) ]
  /\ fetchReplies (snd run) = [okResponse].
Proof.
  intros w run.
  destruct (appendLoop_chunks "m1" (20 * MiB) w
              [okResponse; okResponse; okResponse; okResponse] [okResponse]
              ltac:(discriminate) eq_refl eq_refl eq_refl)
    as (Hrun & Hsent & _).
  split; [reflexivity|].
  split; [exact Hrun|].
  split; [exact Hsent|].
  reflexivity.
Defined.


Lemma uploadMedia_validation_witness :
  uploadMedia "notes.txt" None demoWorld
    = (Throw (UnsupportedType ".txt"), demoWorld)
  /\ uploadMedia "movie.mp4" None demoWorld
     = (Throw (FileTooLarge (600 * MiB) (512 * MiB) "tweet_video"), demoWorld).
Proof.
  split.
  - exact (proj1 (uploadMedia_validation "notes.txt" None demoWorld) eq_refl).
  - exact (proj2 (uploadMedia_validation "movie.mp4" None demoWorld)
             "video/mp4" "tweet_video" (512 * MiB) (600 * MiB)
             eq_refl eq_refl eq_refl eq_refl eq_refl).
Defined.

(** *** Exact decimals satisfy the laws of the number structure *)




(** *** The demonstration runtime satisfies the laws of [JSON.parse] *)

Lemma demoRuntime_JSONLaws : JSONLaws (rt := demoRuntime (N := float64)).
Proof.
  split.
  - reflexivity.
  - intros l e H. apply lookup_In in H. cbn in H.
    repeat (destruct H as [[= <- <-]|H]; [reflexivity|]). contradiction.
  - intros l e H. apply lookup_In in H. cbn in H.
    repeat (destruct H as [[= <- <-]|H]; [reflexivity|]). contradiction.
Qed.

Lemma loadUsageLog_tolerant_witness :
  let l1 := "{call posts.create}" in
  let l3 := "{call posts.searchAll}" in
  let w := withUsageFile (Some (unlines [l1; "{timestamp: 2026-01"; l3]))
             demoWorld in
  loadUsageLog w
    = [ demoEntry "posts.create" 0.01%float;
        demoEntry "posts.searchAll" 0.02%float ]
  /\ Forall2 parsedAs [l1; l3] (loadUsageLog w).
Proof.
  intros l1 l3 w.
  destruct (loadUsageLog_tolerant (jsonLaws := demoRuntime_JSONLaws))
    as [Hall Hbetween].
  split.
  - rewrite (Hall w). reflexivity.
  - apply (Hbetween w [l1] [l3] "{timestamp: 2026-01").
    + discriminate.
    + discriminate.
    + repeat constructor; discriminate.
    + reflexivity.
    + reflexivity.
    + reflexivity.
Defined.

(* --------------------------------------------------------------------- *)
(** ** APPEND requests and the interceptor *)
(* --------------------------------------------------------------------- *)

(** The APPEND loop never writes the ledger: no segment is recorded. *)
Lemma appendLoop_ledger {N : JSNumber} (mediaId : string)
  (fileSize bytesRead segmentIndex : Z) (w : World) :
  usageFile (snd (appendLoop mediaId fileSize bytesRead segmentIndex w))
    = usageFile w.
Proof.
  functional induction (appendLoop mediaId fileSize bytesRead segmentIndex w)
    as [ ? ? ? ? ? resp w1 Hfetch ? | ? ? ? ? ? resp w1 Hfetch ? IH
       | ? ? ? ? ? e w1 Hfetch | ? ? ? ? ? w1 Hfetch | ];
    try rewrite IH; try reflexivity;
    unfold fetchAppend in Hfetch; cbn [fetchReplies emit] in Hfetch;
    destruct (fetchReplies _); inversion Hfetch; reflexivity.
Qed.

(** The APPEND loop never reads the budget: it runs the same way under
    any budget file. *)
Lemma appendLoop_budget {N : JSNumber} (b : option BudgetConfig)
  (mediaId : string) (fileSize bytesRead segmentIndex : Z) (w : World) :
  appendLoop mediaId fileSize bytesRead segmentIndex (withBudgetFile b w)
    = (fst (appendLoop mediaId fileSize bytesRead segmentIndex w),
       withBudgetFile b
         (snd (appendLoop mediaId fileSize bytesRead segmentIndex w))).
Proof.
  functional induction (appendLoop mediaId fileSize bytesRead segmentIndex w)
    as [ ? ? ? ? ? resp w1 Hfetch Hok | ? ? ? ? ? resp w1 Hfetch Hok IH
       | ? ? ? ? ? e w1 Hfetch | ? ? ? ? ? w1 Hfetch | ];
    rewrite appendLoop_equation;
    match goal with H : (_ <? _) = _ |- _ => rewrite H end;
    try reflexivity;
    unfold fetchAppend in *; cbn [fetchReplies emit withBudgetFile] in *;
    destruct (fetchReplies _); inversion Hfetch; subst;
    cbn [fst snd]; try rewrite Hok; try reflexivity.
  exact IH.
Qed.

(** C1 (on the code).  In that run the upload stops at FINALIZE with
    BudgetExceeded, after the two segments have gone out; the ledger
    holds the one record of INIT and none for the segments. *)
Theorem chunkedUpload_append_unaccounted :
  let run := chunkedUpload (wrapClient sdkClient)
               "clip.gif" "image/gif" "tweet_gif" None gifUnderBudget in
  fst run
    = Throw (BudgetExceeded (N := float64) 0.005%float 0.005%float 0.005%float)
  /\ networkEvents (trace (snd run))
     = [ SdkCall "media" "initializeUpload"
           (InitArgs "image/gif" "tweet_gif" (6 * MiB));
         FetchAppend (appendUrl "m1") 0 0 (5 * MiB);
         FetchAppend (appendUrl "m1") 1 (5 * MiB) (1 * MiB) ]
  /\ fetchReplies (snd run) = []
  /\ usageFile (snd run)
     = Some ("{call media.initializeUpload}" ++ String LF EmptyString)
  /\ checkBudget "media.append" (snd run)
     = (Throw (BudgetExceeded (N := float64)
                 0.005%float 0.005%float 0.005%float), snd run).
Proof.
  vm_compute. repeat split; reflexivity.
Qed.

(** A ledger of 199 calls recorded at 0.01 each: the running sum in
    doubles is above 1.99, so under the limit 2.00 one more call at 0.01
    is refused. *)
Remark accumulated_spend_rounding :
  let w := withUsageFile
             (Some (unlines (repeat "{call posts.create}" 199)))
             (withBudgetFile (blockAt (N := float64) 2.00%float) demoWorld) in
  let todaySpend := computeTodaySpend w (loadUsageLog w) in
  PrimFloat.ltb 1.99%float todaySpend = true
  /\ checkBudget "posts.create" w
     = (Throw (BudgetExceeded (N := float64) 2.00%float todaySpend 0.01%float), w).
Proof.
  vm_compute. split; reflexivity.
Qed.

(* --------------------------------------------------------------------- *)
(** ** Amounts in doubles *)
(* --------------------------------------------------------------------- *)


Section FloatAmounts.

Context {rt : Runtime}.

(** The estimate of any endpoint, listed or not, is a double between 0
    and 0.02; so every record [logApiCall] writes has a cost that is not
    negative (and not NaN), which is what the comparison of spending
    windows asks of the ledger. *)
Theorem estimateCost_bounds (endpoint : string) (w : World) :
  leb zero (estimateCost endpoint) = true
  /\ leb (estimateCost endpoint) 0.02%float = true
  /\ isNaN (estimateCost endpoint) = false
  /\ nonNegativeCost (usageEntryFor endpoint w).
Proof.
  assert (H : leb zero (estimateCost endpoint) = true
              /\ leb (estimateCost endpoint) 0.02%float = true
              /\ isNaN (estimateCost endpoint) = false).
  { unfold estimateCost, COST_MAP. cbn [lookup].
    repeat match goal with
           | |- context [String.eqb ?k endpoint] =>
               destruct (String.eqb k endpoint)
           end;
      repeat split; reflexivity. }
  destruct H as (H0 & H1 & H2). repeat split; assumption.
Qed.


End FloatAmounts.

(* --------------------------------------------------------------------- *)
(** ** Instances: the budget and the ledger *)
(* --------------------------------------------------------------------- *)

Definition budgetOf (limit : float) (a : BudgetAction) : option BudgetConfig :=
  Some {| daily := Some limit; action := a |}.

(** A ledger with 1.99 spent today, under a limit of 2.00. *)
Definition nearLimit (a : BudgetAction) (answers : list string) : World :=
  withStdin answers
    (withUsageFile (Some spent199)
       (withBudgetFile (budgetOf 2.00%float a) demoWorld)).

Lemma checkBudget_warn_proceeds_witness :
  let w := nearLimit warn [] in
  checkBudget "posts.searchAll" w
    = (Ok tt, emit (BudgetWarning 2.00%float 1.99%float 0.02%float) w).
Proof.
  intros w.
  exact (proj1 (checkBudget_warn_proceeds "posts.searchAll" w 2.00%float
                  eq_refl eq_refl eq_refl eq_refl)).
Defined.




Lemma logApiCall_read_back_witness :
  let w := withUsageFile (Some (unlines ["{call posts.create}"])) demoWorld in
  loadUsageLog (snd (logApiCall "posts.searchAll" w))
    = [ demoEntry "posts.create" 0.01%float;
        demoEntry "posts.searchAll" 0.02%float ].
Proof.
  intros w.
  refine (eq_trans
            (proj1 (logApiCall_read_back (jsonLaws := demoRuntime_JSONLaws)
                      "posts.searchAll" w ["{call posts.create}"]
                      (or_introl eq_refl) _ eq_refl eq_refl)) _).
  - repeat constructor; discriminate.
  - reflexivity.
Defined.


Lemma loadUsageLog_blank_witness :
  loadUsageLog (withUsageFile (Some (" " ++ String LF " ")) demoWorld) = [].
Proof.
  apply loadUsageLog_blank. right. eexists. split; reflexivity.
Defined.


Lemma costLogRecent_limit_witness :
  let w := withUsageFile
             (Some (unlines ["{call posts.create}"; "{call posts.searchAll}"]))
             demoWorld in
  costLogRecent (Some 1) w = [demoEntry "posts.searchAll" 0.02%float]
  /\ costLogRecent (Some (-1)) w = [demoEntry "posts.searchAll" 0.02%float].
Proof.
  intros w. split.
  - exact (proj1 (proj1 (costLogRecent_limit w) 1 eq_refl)).
  - exact (proj2 (proj2 (proj2 (costLogRecent_limit w))) 1 eq_refl).
Defined.

(* --------------------------------------------------------------------- *)
(** ** Instances: accounts and the client *)
(* --------------------------------------------------------------------- *)

(** An OAuth2 account whose token ran out an hour before the clock of
    the examples, with what a refresh needs. *)
Definition staleAccount : Account :=
  {| auth := {| authType := "oauth2";
                bearerToken := None;
                accessToken := Some "old";
                refreshToken := Some "refresh";
                clientId := Some "client";
                expiresAt := Some 1767265200000 |} |}.

Definition freshTokens : OAuth2Token :=
  {| access_token := "new"; refresh_token := None; expires_in := 7200 |}.

(** The stale account under the name "work", which is the default. *)
Definition staleWorld (replies : list OAuthReply) : World :=
  withOauthReplies replies
    (withConfig {| defaultAccount := "work";
                   accountTable := [("work", staleAccount)] |} demoWorld).



Lemma getClient_refreshes_witness :
  let run := getClient (Some "work") (staleWorld [Granted freshTokens]) in
  trace (snd run) = [RefreshNotice; TokenRefresh "client" "refresh"]
  /\ fst run = Ok (wrapClient sdkClient)
  /\ getAccount (Some "work") (snd run)
     = Some (refreshedAccount staleAccount 1767268800000 freshTokens).
Proof.
  intros run.
  destruct (getClient_refreshes (Some "work") (staleWorld [Granted freshTokens])
              staleAccount "client" "refresh" (Granted freshTokens) []
              eq_refl eq_refl eq_refl eq_refl eq_refl ltac:(discriminate)
              eq_refl ltac:(discriminate) eq_refl)
    as (Htrace & _ & Hout & Hacc).
  split; [exact Htrace|]. split; [exact Hout|exact Hacc].
Defined.

Lemma staleWorld_refreshable (accountName : option string)
  (replies : list OAuthReply) :
  nullish accountName "work" = "work" ->
  refreshable accountName (staleWorld replies) staleAccount "client" "refresh".
Proof.
  intros H. unfold refreshable, getAccount. cbn [staleWorld].
  change (defaultAccount (config (staleWorld replies))) with "work".
  rewrite H. repeat split; discriminate.
Qed.

Lemma getClient_refresh_found_again_witness :
  let named := snd (getClient (Some "work") (staleWorld [Granted freshTokens])) in
  let unnamed := snd (getClient None (staleWorld [Granted freshTokens])) in
  getClient (Some "work") named = (Ok (wrapClient sdkClient), named)
  /\ getAccount None unnamed = Some staleAccount.
Proof.
  intros named unnamed. split.
  - refine (proj2 (proj1 (getClient_refresh_found_again (Some "work")
                            (staleWorld [Granted freshTokens]) staleAccount
                            "client" "refresh" freshTokens []
                            (staleWorld_refreshable (Some "work")
                               [Granted freshTokens] eq_refl) eq_refl)
                     (or_introl _)) _ eq_refl); discriminate.
  - refine (proj2 (getClient_refresh_found_again None
                     (staleWorld [Granted freshTokens]) staleAccount
                     "client" "refresh" freshTokens []
                     (staleWorld_refreshable None [Granted freshTokens]
                        eq_refl) eq_refl)
              eq_refl _); discriminate.
Defined.

Lemma wrapClient_transparent_witness :
  let w := withSdkReplies [initReply] demoWorld in
  usageFile (snd (call (wrapClient sdkClient) "posts" "create"
                    (OtherArgs ["hello"]) w))
    = Some ("{call posts.create}" ++ String LF EmptyString)
  /\ call (wrapClient (fun _ => None)) "posts" "create" (OtherArgs []) w
     = (Throw (NotAFunction "posts" "create"), w).
Proof.
  intros w. split.
  - exact (f_equal (fun run => usageFile (snd run))
             (proj1 (wrapClient_transparent "posts" "create"
                       (OtherArgs ["hello"]) w) eq_refl)).
  - destruct (proj2 (wrapClient_transparent "posts" "create" (OtherArgs []) w)
                (fun _ => None) (or_introl eq_refl)) as [Hsame Hbare].
    exact (eq_trans Hsame Hbare).
Defined.

(* --------------------------------------------------------------------- *)
(** ** Instances: uploads *)
(* --------------------------------------------------------------------- *)

Definition busyResponse : FetchResponse :=
  {| resp_ok := false; resp_status := 503; resp_body := "busy" |}.

(** A status reply that suggests no time to wait. *)
Definition pendingReply : SdkReply :=
  Replied (Some {| data_id := Some "m1";
                   data_processingInfo :=
                     Some {| info_state := Some "pending";
                             info_checkAfterSecs := None;
                             info_errorMessage := None |} |}).

Definition bearerAccount : Account :=
  {| auth := {| authType := "bearer";
                bearerToken := Some "app-token";
                accessToken := None;
                refreshToken := None;
                clientId := None;
                expiresAt := None |} |}.

(** The 6 MiB GIF of the examples, with no budget set. *)
Definition gifUpload (sdk : list SdkReply) (fetches : list FetchResponse)
  : World :=
  withFetchReplies fetches (withSdkReplies sdk demoWorld).

Definition photoWorld : World :=
  {| budgetFile := None;
     usageFile := None;
     config := {| defaultAccount := "default";
                  accountTable := [("default", bearerAccount)] |};
     fileSizes := [("photo.PNG", 2 * MiB)];
     nowMs := 1767268800000;
     midnightMs := 1767225600000;
     nowISO := demoNow;
     stdin := [];
     sdkReplies := [initReply];
     fetchReplies := [];
     oauthReplies := [];
     trace := [] |}.

Lemma appendLoop_aborts_witness :
  let w := withFetchReplies [okResponse; busyResponse; okResponse] demoWorld in
  let run := appendLoop "m1" (12 * MiB) 0 0 w in
  fst run = Throw (AppendFailed 1 503 "busy")
  /\ sentSegments (trace (snd run)) = [(0, 0, 5 * MiB); (1, 5 * MiB, 5 * MiB)]
  /\ fetchReplies (snd run) = [okResponse].
Proof.
  intros w run.
  destruct (appendLoop_aborts "m1" (12 * MiB) w [okResponse] [okResponse]
              busyResponse ltac:(discriminate) eq_refl eq_refl eq_refl eq_refl)
    as (Hout & Hsent & Hrest & _).
  split; [exact Hout|]. split; [exact Hsent|exact Hrest].
Defined.

Lemma waitForProcessing_first_terminal_witness :
  let w := withSdkReplies
             [statusReply "in_progress" None; pendingReply; initReply;
              statusReply "failed" None]
             demoWorld in
  let run := waitForProcessing (wrapClient sdkClient) "m1" w in
  fst run = Ok tt
  /\ sleeps (trace (snd run)) = [1000; 5000]
  /\ statusQueries (trace (snd run)) = 3%nat
  /\ sdkReplies (snd run) = [statusReply "failed" None].
Proof.
  intros w run.
  refine (waitForProcessing_first_terminal "m1"
            [statusReply "in_progress" None; pendingReply] initReply
            [statusReply "failed" None] w eq_refl eq_refl _ eq_refl eq_refl).
  unfold maxAttempts. cbn. lia.
Defined.

Lemma chunkedUpload_stops_after_init_witness :
  let w := withConfig {| defaultAccount := "default";
                         accountTable := [("default", bearerAccount)] |}
             (gifUpload [initReply] [okResponse; okResponse]) in
  let run := chunkedUpload (wrapClient sdkClient) "clip.gif" "image/gif"
                           "tweet_gif" None w in
  fst run = Throw NoAccessTokenForUpload
  /\ networkEvents (trace (snd run))
     = [SdkCall "media" "initializeUpload"
          (InitArgs "image/gif" "tweet_gif" (6 * MiB))]
  /\ usageFile (snd run)
     = Some ("{call media.initializeUpload}" ++ String LF EmptyString)
  /\ fetchReplies (snd run) = [okResponse; okResponse].
Proof.
  intros w run.
  exact (chunkedUpload_stops_after_init "clip.gif" "image/gif" "tweet_gif"
           None w (6 * MiB)
           (Some {| data_id := Some "m1"; data_processingInfo := None |}) []
           eq_refl eq_refl eq_refl (or_intror eq_refl)).
Defined.

Lemma chunkedUpload_completes_witness :
  let w := gifUpload [initReply; initReply] [okResponse; okResponse] in
  let run := chunkedUpload (wrapClient sdkClient) "clip.gif" "image/gif"
                           "tweet_gif" None w in
  fst run = Ok "m1"
  /\ networkEvents (trace (snd run))
     = [ SdkCall "media" "initializeUpload"
           (InitArgs "image/gif" "tweet_gif" (6 * MiB));
         appendRequest "m1" (6 * MiB) 0;
         appendRequest "m1" (6 * MiB) 1;
         SdkCall "media" "finalizeUpload" (FinalizeArgs "m1") ]
  /\ usageFile (snd run)
     = Some (unlines ["{call media.initializeUpload}";
                      "{call media.finalizeUpload}"]).
Proof.
  intros w run.
  destruct (chunkedUpload_completes "clip.gif" "image/gif" "tweet_gif" None w
              (6 * MiB)
              (Some {| data_id := Some "m1"; data_processingInfo := None |})
              (Some {| data_id := Some "m1"; data_processingInfo := None |})
              [] [okResponse; okResponse] [] "m1" "token"
              eq_refl eq_refl ltac:(discriminate) eq_refl eq_refl
              ltac:(discriminate) eq_refl ltac:(discriminate) eq_refl
              eq_refl eq_refl eq_refl eq_refl)
    as (Hout & Hnet & Hledger & _).
  split; [exact Hout|]. split; [exact Hnet|exact Hledger].
Defined.

Lemma chunkedUpload_waits_witness :
  let w := gifUpload
             [initReply; pendingReply; statusReply "in_progress" None;
              statusReply "failed" (Some "bad codec")]
             [okResponse; okResponse] in
  let run := chunkedUpload (wrapClient sdkClient) "clip.gif" "image/gif"
                           "tweet_gif" None w in
  fst run = Throw (ProcessingFailed "bad codec")
  /\ statusQueries (trace (snd run)) = 2%nat.
Proof.
  intros w run.
  assert (Hinfo : "tweet_gif" = "tweet_video"
                  \/ processingInfoOf
                       (Some {| data_id := Some "m1";
                                data_processingInfo :=
                                  Some {| info_state := Some "pending";
                                          info_checkAfterSecs := None;
                                          info_errorMessage := None |} |})
                     <> None)
    by (right; discriminate).
  assert (Hfew : (List.length [statusReply "in_progress" None] < maxAttempts)%nat)
    by (unfold maxAttempts; cbn; lia).
  destruct (chunkedUpload_waits "clip.gif" "image/gif" "tweet_gif" None w
              (6 * MiB)
              (Some {| data_id := Some "m1"; data_processingInfo := None |})
              (Some {| data_id := Some "m1";
                       data_processingInfo :=
                         Some {| info_state := Some "pending";
                                 info_checkAfterSecs := None;
                                 info_errorMessage := None |} |})
              [statusReply "in_progress" None]
              (statusReply "failed" (Some "bad codec")) []
              [okResponse; okResponse] [] "m1" "token"
              eq_refl eq_refl ltac:(discriminate) eq_refl eq_refl
              ltac:(discriminate) eq_refl ltac:(discriminate) eq_refl
              eq_refl eq_refl Hinfo eq_refl eq_refl Hfew)
    as (Hout & Hqueries & _).
  split; [exact Hout|exact Hqueries].
Defined.

Lemma uploadMedia_image_one_shot_witness :
  let run := uploadMedia "photo.PNG" None photoWorld in
  fst run = Ok "m1"
  /\ networkEvents (trace (snd run))
     = [SdkCall "media" "upload"
          (UploadArgs "photo.PNG" "image/png" "tweet_image")]
  /\ usageFile (snd run)
     = Some ("{call media.upload}" ++ String LF EmptyString).
Proof.
  intros run.
  assert (Hmime : lookup MIME_MAP (toLowerCase (path_extname "photo.PNG"))
                  = Some "image/png") by (vm_compute; reflexivity).
  assert (Hcat : nullish (lookup CATEGORY_MAP
                            (toLowerCase (path_extname "photo.PNG")))
                         "tweet_image" = "tweet_image")
    by (vm_compute; reflexivity).
  assert (Hsize : 2 * MiB <= 5 * MiB) by (vm_compute; discriminate).
  destruct (uploadMedia_image_one_shot "photo.PNG" None photoWorld
              "image/png" (2 * MiB) bearerAccount initReply []
              Hmime Hcat eq_refl Hsize eq_refl
              (or_introl (conj eq_refl eq_refl)) eq_refl eq_refl)
    as (Hout & Hnet & Hledger & _).
  split; [exact Hout|]. split; [exact Hnet|exact Hledger].
Defined.

(* --------------------------------------------------------------------- *)
(** ** Instances: what is shown *)
(* --------------------------------------------------------------------- *)

Definition ann : User :=
  {| user_id := Some "7"; user_username := "ann"; user_name := "Ann" |}.

Definition note : Tweet :=
  {| tweet_id := Some "42";
     tweet_text := Some ("first" ++ String LF "second");
     tweet_authorId := Some "7";
     tweet_publicMetrics :=
       Some {| likeCount := Some 3%float;
               retweetCount := Some 0%float;
               replyCount := None;
               quoteCount := Some 3%float |};
     tweet_createdAt := Some "2026-01-01" |}.

Lemma formatTweet_lines_witness :
  splitLines (formatTweet (fun _ => "3") (fun _ => "1/1/2026") note
                          (Some (buildUserMap (Some [ann]))))
    = [ "@ann (Ann)"; "  first"; "  second"; "  3 likes · 3 quotes";
        "  1/1/2026 · id:42" ].
Proof.
  refine (eq_trans
            (formatTweet_lines (fun _ => "3") (fun _ => "1/1/2026") note
               (Some (buildUserMap (Some [ann])))
               (fun _ => eq_refl) (fun _ => eq_refl) _ _) eq_refl).
  - intros author [= <-]. split; reflexivity.
  - intros id [= <-]. reflexivity.
Defined.

Lemma accountStatus_remaining_witness :
  (accountStatus (auth staleAccount) 1767268800000 = "⟳ expired (has refresh)"
   /\ dueForRefresh (auth staleAccount) 1767268800000 = true)
  /\ exists hours mins,
       accountStatus (auth demoAccount) 1767268800000
         = "✓ " ++ showZ hours ++ "h" ++ showZ mins ++ "m remaining"
       /\ 0 <= hours /\ 0 <= mins < 60
       /\ hours * 3600000 + mins * 60000 <= 31200000
            < hours * 3600000 + mins * 60000 + 60000
       /\ (dueForRefresh (auth demoAccount) 1767268800000 = true
           <-> 31200000 <= 60000).
Proof.
  split.
  - exact (proj1 (accountStatus_remaining (auth staleAccount) 1767268800000
                    1767265200000 eq_refl eq_refl ltac:(discriminate))
             ltac:(discriminate)).
  - exact (proj2 (accountStatus_remaining (auth demoAccount) 1767268800000
                    1767300000000 eq_refl eq_refl ltac:(discriminate))
             eq_refl).
Defined.
